(** * Josh's Storyboard: the Express server [server.js]

    A shallow embedding of the request handlers of [server.js] and of the
    persisted document, with the properties of the catalog proved about it.

    Conventions of the embedding.
    - A JavaScript string is modelled by the [string] of the bytes of its
      UTF-8 encoding.  Every string operation the server performs (emptiness,
      [===], concatenation, [startsWith], the scans of [path.extname] and of
      [parseInt], the escaping of [JSON.stringify]) looks at ASCII bytes only
      and copies the others, so it reads the same on the encoding.
    - A JavaScript number is modelled by the integer it holds ([Z]).  The
      numbers the server computes itself are [Date.now()], array lengths and
      counters; the decimal printing of [JSON.stringify] and of string
      concatenation is the plain one that JavaScript uses below 1e21.
      [parseInt] and the increment of the visit counter give the double
      nearest to the exact result ([round_to_double]), which differs from
      it from 2^53 on; [JSON.parse] gives the integer that the digits spell
      (JavaScript rounds it to a double from 2^53 on).
    - The file system is the content of [data.json] and the set of the file
      names present in the [uploads] directory; the process is started from
      the directory of [server.js], and file writes succeed.
    - The libraries are Express 4 and [multer] 1.4.5-lts or 2 (on [busboy]
      1).  [express.static('public')] comes before the routes; of the
      directory [public] only the page [index.html] matters, which a
      request for [/] finds or does not find, and no file of it lies at a
      path of the API. *)

From Stdlib Require Import ZArith String Ascii List Lia Decimal DecimalString
  DecimalZ DecimalFacts.
From stdpp Require Import base decidable option list gmap strings sorting.

Set Warnings "-register-all".

Local Open Scope string_scope.
Local Open Scope Z_scope.

(** ** Decimal printing of integers *)

(** [String(n)] for an integer-valued number [n]. *)
Definition Number_toString (n : Z) : string :=
  NilZero.string_of_int (Z.to_int n).

(** The value of the numeral [d] read after the digits of value [acc]. *)
Fixpoint uint_value (acc : Z) (d : Decimal.uint) : Z :=
  match d with
  | Nil => acc
  | D0 d => uint_value (acc * 10 + 0) d
  | D1 d => uint_value (acc * 10 + 1) d
  | D2 d => uint_value (acc * 10 + 2) d
  | D3 d => uint_value (acc * 10 + 3) d
  | D4 d => uint_value (acc * 10 + 4) d
  | D5 d => uint_value (acc * 10 + 5) d
  | D6 d => uint_value (acc * 10 + 6) d
  | D7 d => uint_value (acc * 10 + 7) d
  | D8 d => uint_value (acc * 10 + 8) d
  | D9 d => uint_value (acc * 10 + 9) d
  end.

(** ** Numbers as doubles *)

(** The Number value of the integer [n]: the nearest integer that a double
    holds, which has 53 significant bits, the one with the even
    significand when two are as near. *)
Definition round_to_double (n : Z) : Z :=
  let a := Z.abs n in
  let e := Z.log2 a in
  if e <? 53 then n
  else
    let ulp := 2 ^ (e - 52) in
    let q := a / ulp in
    let r := a mod ulp in
    let q' := if (ulp <? 2 * r) || ((2 * r =? ulp) && Z.odd q)
              then q + 1 else q in
    Z.sgn n * (q' * ulp).

(** The Number value of the integer [n] when it is finite; [None] is
    [Infinity] or [-Infinity], from 2^1024 on. *)
Definition to_Number (n : Z) : option Z :=
  let r := round_to_double n in
  if Z.log2 (Z.abs r) <? 1024 then Some r else None.

(** [n++] on a Number. *)
Definition increment (n : Z) : Z := round_to_double (n + 1).

(** ** Characters and strings *)

(** The ASCII characters by code, for the ones that have no printable
    literal. *)
Definition BS : ascii := ascii_of_N 8.
Definition HT : ascii := ascii_of_N 9.
Definition LF : ascii := ascii_of_N 10.
Definition FF : ascii := ascii_of_N 12.
Definition CR : ascii := ascii_of_N 13.
Definition DQUOTE : ascii := ascii_of_N 34.

(** A decimal digit. *)
Definition is_digit (c : ascii) : bool :=
  let n := N_of_ascii c in ((48 <=? n) && (n <=? 57))%N.

Definition starts_with_digit (s : string) : bool :=
  match s with
  | String c _ => is_digit c
  | EmptyString => false
  end.

(** [s] without its prefix [p], when it starts with it. *)
Fixpoint strip_prefix (p s : string) : option string :=
  match p, s with
  | EmptyString, _ => Some s
  | String a p', String b s' =>
      if Ascii.eqb a b then strip_prefix p' s' else None
  | String _ _, EmptyString => None
  end.

(** ** [parseInt(string)] with no radix (ECMAScript, sec. parseInt) *)

(** White space and line terminators of one byte. *)
Definition is_ws1 (c : ascii) : bool :=
  let n := N_of_ascii c in
  ((9 <=? n) && (n <=? 13) || (n =? 32))%N.

(** U+00A0 as its two bytes. *)
Definition is_ws2 (c1 c2 : ascii) : bool :=
  ((N_of_ascii c1 =? 194) && (N_of_ascii c2 =? 160))%N.

(** U+1680, U+2000..U+200A, U+2028, U+2029, U+202F, U+205F, U+3000 and
    U+FEFF as their three bytes. *)
Definition is_ws3 (c1 c2 c3 : ascii) : bool :=
  let a := N_of_ascii c1 in
  let b := N_of_ascii c2 in
  let c := N_of_ascii c3 in
  ((a =? 225) && (b =? 154) && (c =? 128)
   || (a =? 226) && (b =? 128)
        && ((128 <=? c) && (c <=? 138) || (c =? 168) || (c =? 169) || (c =? 175))
   || (a =? 226) && (b =? 129) && (c =? 159)
   || (a =? 227) && (b =? 128) && (c =? 128)
   || (a =? 239) && (b =? 187) && (c =? 191))%N.

(** TrimString(inputString, start): leading white space and line
    terminators are dropped. *)
Fixpoint TrimStart (s : string) : string :=
  match s with
  | EmptyString => s
  | String c1 r1 =>
      if is_ws1 c1 then TrimStart r1
      else match r1 with
           | EmptyString => s
           | String c2 r2 =>
               if is_ws2 c1 c2 then TrimStart r2
               else match r2 with
                    | EmptyString => s
                    | String c3 r3 =>
                        if is_ws3 c1 c2 c3 then TrimStart r3 else s
                    end
           end
  end.

(** A text of white space and line terminators only. *)
Fixpoint WhiteSpace (s : string) : bool :=
  match s with
  | EmptyString => true
  | String c1 r1 =>
      if is_ws1 c1 then WhiteSpace r1
      else match r1 with
           | EmptyString => false
           | String c2 r2 =>
               if is_ws2 c1 c2 then WhiteSpace r2
               else match r2 with
                    | EmptyString => false
                    | String c3 r3 => is_ws3 c1 c2 c3 && WhiteSpace r3
                    end
           end
  end.

(** The value of [c] as a digit of radix [R], when it is one. *)
Definition digit_value (R : Z) (c : ascii) : option Z :=
  let n := Z.of_N (N_of_ascii c) in
  let v := if (48 <=? n) && (n <=? 57) then Some (n - 48)
           else if (97 <=? n) && (n <=? 122) then Some (n - 87)
           else if (65 <=? n) && (n <=? 90) then Some (n - 55)
           else None in
  match v with
  | Some d => if d <? R then Some d else None
  | None => None
  end.

(** The longest prefix of radix-[R] digits, read left to right; [acc] is
    the value of the digits read so far, [None] when none was read. *)
Fixpoint radix_prefix (R : Z) (acc : option Z) (s : string) : option Z :=
  match s with
  | EmptyString => acc
  | String c r =>
      match digit_value R c with
      | Some d => radix_prefix R (Some (default 0 acc * R + d)) r
      | None => acc
      end
  end.

(** [parseInt(inputString)].  [None] is a result that is no finite
    number: [NaN] when there is no digit to read, [Infinity] or
    [-Infinity] when the digits spell a number from 2^1024 on.  None of
    them is [===] to the id of an entry, which is a finite number. *)
Definition parseInt (inputString : string) : option Z :=
  let S0 := TrimStart inputString in
  let '(sign, S1) :=
    match S0 with
    | String "-" r => (-1, r)
    | String "+" r => (1, r)
    | _ => (1, S0)
    end in
  let '(R, S2) :=
    match S1 with
    | String "0" (String "x" r) => (16, r)
    | String "0" (String "X" r) => (16, r)
    | _ => (10, S1)
    end in
  match radix_prefix R None S2 with
  | None => None
  | Some mathInt => to_Number (sign * mathInt)
  end.

(** ** [path.extname] (Node.js, POSIX flavour) *)

Module path.

Record extname_state : Type := {
  startDot : Z;
  startPart : Z;
  end_ : Z;
  matchedSlash : bool;
  preDotState : Z
}.

(** One iteration of the loop, on the character [code] at index [i];
    [inl] is the [break]. *)
Definition extname_step (i : Z) (code : ascii) (st : extname_state)
  : extname_state + extname_state :=
  if Ascii.eqb code "/" then
    if negb (matchedSlash st) then
      inl {| startDot := startDot st; startPart := i + 1; end_ := end_ st;
             matchedSlash := matchedSlash st; preDotState := preDotState st |}
    else inr st
  else
    let st :=
      if end_ st =? -1 then
        {| startDot := startDot st; startPart := startPart st; end_ := i + 1;
           matchedSlash := false; preDotState := preDotState st |}
      else st in
    if Ascii.eqb code "." then
      if startDot st =? -1 then
        inr {| startDot := i; startPart := startPart st; end_ := end_ st;
               matchedSlash := matchedSlash st; preDotState := preDotState st |}
      else if negb (preDotState st =? 1) then
        inr {| startDot := startDot st; startPart := startPart st;
               end_ := end_ st; matchedSlash := matchedSlash st;
               preDotState := 1 |}
      else inr st
    else if negb (startDot st =? -1) then
      inr {| startDot := startDot st; startPart := startPart st;
             end_ := end_ st; matchedSlash := matchedSlash st;
             preDotState := -1 |}
    else inr st.

(** The loop [for (let i = path.length - 1; i >= 0; --i)], on the
    characters of the path in reverse order; [i] is the index of the first
    of them. *)
Fixpoint extname_loop (rev_path : list ascii) (i : Z) (st : extname_state)
  : extname_state :=
  match rev_path with
  | [] => st
  | code :: rest =>
      match extname_step i code st with
      | inl st' => st'
      | inr st' => extname_loop rest (i - 1) st'
      end
  end.

(** [path.slice(from, to)] for [0 <= from]. *)
Definition slice (s : string) (from to : Z) : string :=
  substring (Z.to_nat from) (Z.to_nat (to - from)) s.

Definition extname (path : string) : string :=
  let st := extname_loop (rev (list_ascii_of_string path))
              (Z.of_nat (String.length path) - 1)
              {| startDot := -1; startPart := 0; end_ := -1;
                 matchedSlash := true; preDotState := 0 |} in
  if (startDot st =? -1)
     || (end_ st =? -1)
     || (preDotState st =? 0)
     || ((preDotState st =? 1)
         && (startDot st =? end_ st - 1)
         && (startDot st =? startPart st + 1))
  then ""
  else slice path (startDot st) (end_ st).

End path.
Import path.

(** ** [JSON]: the values, [JSON.stringify] and [JSON.parse] *)

Module JSON.

Inductive json : Type :=
| JNull
| JBool (b : bool)
| JNum (n : Z)
| JStr (s : string)
| JArr (elements : list json)
| JObj (members : list (string * json)).

Definition hex_digit (n : N) : ascii :=
  if (n <? 10)%N then ascii_of_N (48 + n) else ascii_of_N (87 + n).

(** [\u00XX] for a control character [c]. *)
Definition unicode_escape (c : ascii) : string :=
  let n := N_of_ascii c in
  String "\" (String "u" (String "0" (String "0"
    (String (hex_digit (n / 16)) (String (hex_digit (n mod 16)) ""))))).

(** One character of QuoteJSONString. *)
Definition quote_char (c : ascii) : string :=
  if Ascii.eqb c BS then "\b"
  else if Ascii.eqb c HT then "\t"
  else if Ascii.eqb c LF then "\n"
  else if Ascii.eqb c FF then "\f"
  else if Ascii.eqb c CR then "\r"
  else if Ascii.eqb c DQUOTE then String "\" (String DQUOTE "")
  else if Ascii.eqb c "\" then "\\"
  else if (N_of_ascii c <? 32)%N then unicode_escape c
  else String c "".

Fixpoint quote_chars (s : string) : string :=
  match s with
  | EmptyString => ""
  | String c r => quote_char c ++ quote_chars r
  end.

Definition QuoteJSONString (s : string) : string :=
  String DQUOTE (quote_chars s ++ String DQUOTE "").

Definition newline : string := String LF "".

(** [JSON.stringify(value, null, 2)]: [indent] is the current indentation,
    the gap is two spaces. *)
Definition gap : string := "  ".

Fixpoint join (sep : string) (parts : list string) : string :=
  match parts with
  | [] => ""
  | [p] => p
  | p :: ps => p ++ sep ++ join sep ps
  end.

Fixpoint SerializeJSONProperty (indent : string) (v : json) : string :=
  match v with
  | JNull => "null"
  | JBool true => "true"
  | JBool false => "false"
  | JNum n => Number_toString n
  | JStr s => QuoteJSONString s
  | JArr elements =>
      match elements with
      | [] => "[]"
      | _ =>
        let stepback := indent in
        let indent := indent ++ gap in
        let partial := map (SerializeJSONProperty indent) elements in
        let separator := "," ++ newline ++ indent in
        "[" ++ newline ++ indent ++ join separator partial
            ++ newline ++ stepback ++ "]"
      end
  | JObj members =>
      match members with
      | [] => "{}"
      | _ =>
        let stepback := indent in
        let indent := indent ++ gap in
        let partial :=
          map (fun kv => QuoteJSONString (fst kv) ++ ": "
                         ++ SerializeJSONProperty indent (snd kv)) members in
        let separator := "," ++ newline ++ indent in
        "{" ++ newline ++ indent ++ join separator partial
            ++ newline ++ stepback ++ "}"
      end
  end.

(** [JSON.stringify(value, null, 2)]. *)
Definition stringify (v : json) : string := SerializeJSONProperty "" v.

(** *** [JSON.parse] *)

(** The outcome of reading a value off the front of a text.  [NotModelled]
    is the answer on a text that holds a number with a fraction or an
    exponent, or an escaped surrogate code unit: the embedding has no image
    for such a value.  It is also the answer of a descent that is out of
    fuel.  The members of an object are kept in the order of the text, a
    repeated name included. *)
Inductive parse_result (A : Type) : Type :=
| Parsed (a : A) (rest : string)
| SyntaxError
| NotModelled.
Arguments Parsed {A} a rest.
Arguments SyntaxError {A}.
Arguments NotModelled {A}.

Definition parse_bind {A B : Type} (r : parse_result A)
    (k : A -> string -> parse_result B) : parse_result B :=
  match r with
  | Parsed a rest => k a rest
  | SyntaxError => SyntaxError
  | NotModelled => NotModelled
  end.

(** JSON white space: space, tab, line feed, carriage return. *)
Definition is_json_ws (c : ascii) : bool :=
  Ascii.eqb c " " || Ascii.eqb c HT || Ascii.eqb c LF || Ascii.eqb c CR.

Fixpoint skip_ws (s : string) : string :=
  match s with
  | String c r => if is_json_ws c then skip_ws r else s
  | EmptyString => s
  end.

(** The bytes of the UTF-8 encoding of the code unit [n] of a [\uXXXX]
    escape, for [n] outside the surrogates. *)
Definition utf8_of_code_unit (n : N) : string :=
  if (n <? 128)%N then String (ascii_of_N n) ""
  else if (n <? 2048)%N then
    String (ascii_of_N (192 + n / 64)) (String (ascii_of_N (128 + n mod 64)) "")
  else
    String (ascii_of_N (224 + n / 4096))
      (String (ascii_of_N (128 + (n / 64) mod 64))
         (String (ascii_of_N (128 + n mod 64)) "")).

Definition hex_value (c : ascii) : option N :=
  match digit_value 16 c with
  | Some d => Some (Z.to_N d)
  | None => None
  end.

(** The characters of a string literal after its opening quote, up to the
    closing one. *)
Fixpoint parse_string_chars (s : string) : parse_result string :=
  match s with
  | EmptyString => SyntaxError
  | String c r =>
      if Ascii.eqb c DQUOTE then Parsed "" r
      else if Ascii.eqb c "\" then
        match r with
        | EmptyString => SyntaxError
        | String e r1 =>
            let simple (x : ascii) :=
              parse_bind (parse_string_chars r1)
                (fun t rest => Parsed (String x t) rest) in
            if Ascii.eqb e DQUOTE then simple DQUOTE
            else if Ascii.eqb e "\" then simple "\"%char
            else if Ascii.eqb e "/" then simple "/"%char
            else if Ascii.eqb e "b" then simple BS
            else if Ascii.eqb e "f" then simple FF
            else if Ascii.eqb e "n" then simple LF
            else if Ascii.eqb e "r" then simple CR
            else if Ascii.eqb e "t" then simple HT
            else if Ascii.eqb e "u" then
              match r1 with
              | String h1 (String h2 (String h3 (String h4 r2))) =>
                  match hex_value h1, hex_value h2, hex_value h3, hex_value h4 with
                  | Some a, Some b, Some c', Some d =>
                      let n := (((a * 16 + b) * 16 + c') * 16 + d)%N in
                      if ((55296 <=? n) && (n <=? 57343))%N then NotModelled
                      else
                        parse_bind (parse_string_chars r2)
                          (fun t rest => Parsed (utf8_of_code_unit n ++ t) rest)
                  | _, _, _, _ => SyntaxError
                  end
              | _ => SyntaxError
              end
            else SyntaxError
        end
      else if (N_of_ascii c <? 32)%N then SyntaxError
      else
        parse_bind (parse_string_chars r)
          (fun t rest => Parsed (String c t) rest)
  end.

(** A run of decimal digits, as the numeral it spells. *)
Fixpoint parse_digits (s : string) : Decimal.uint * string :=
  match s with
  | String c r =>
      if is_digit c then
        let '(d, rest) := parse_digits r in
        (match N_of_ascii c with
         | 48%N => D0 d | 49%N => D1 d | 50%N => D2 d | 51%N => D3 d
         | 52%N => D4 d | 53%N => D5 d | 54%N => D6 d | 55%N => D7 d
         | 56%N => D8 d | _ => D9 d
         end, rest)
      else (Nil, s)
  | EmptyString => (Nil, s)
  end.

(** What may follow the integer part of a number: a fraction, an
    exponent, or the end of the number. *)
Definition parse_number_tail (n : Z) (s : string) : parse_result json :=
  match s with
  | String c r =>
      if Ascii.eqb c "." then
        if starts_with_digit r then NotModelled else SyntaxError
      else if Ascii.eqb c "e" || Ascii.eqb c "E" then
        match r with
        | String c' r' =>
            if Ascii.eqb c' "+" || Ascii.eqb c' "-" then
              if starts_with_digit r' then NotModelled else SyntaxError
            else if is_digit c' then NotModelled else SyntaxError
        | EmptyString => SyntaxError
        end
      else Parsed (JNum n) s
  | EmptyString => Parsed (JNum n) s
  end.

(** The integer part: [0], or a digit from 1 to 9 and more digits. *)
Definition parse_unsigned (sign : Z) (s : string) : parse_result json :=
  match s with
  | String c r =>
      if Ascii.eqb c "0" then parse_number_tail 0 r
      else if is_digit c then
        let '(d, rest) := parse_digits s in
        parse_number_tail (sign * Z.of_uint d) rest
      else SyntaxError
  | EmptyString => SyntaxError
  end.

Definition parse_number (s : string) : parse_result json :=
  match s with
  | String c r =>
      if Ascii.eqb c "-" then parse_unsigned (-1) r else parse_unsigned 1 s
  | EmptyString => SyntaxError
  end.

(** One of the literals [null], [true], [false]. *)
Definition expect (lit : string) (v : json) (s : string) : parse_result json :=
  match strip_prefix lit s with
  | Some rest => Parsed v rest
  | None => SyntaxError
  end.

(** Recursive descent over the grammar of values; [fuel] bounds the depth
    of the calls.  The string literals and the numbers are read by
    [string_chars] and [number]. *)
Section Descent.

Variable string_chars : string -> parse_result string.
Variable number : string -> parse_result json.

Fixpoint value_with (fuel : nat) (s : string) : parse_result json :=
  match fuel with
  | O => NotModelled
  | S fuel =>
      match skip_ws s with
      | EmptyString => SyntaxError
      | String c r as s' =>
          if Ascii.eqb c "n" then expect "null" JNull s'
          else if Ascii.eqb c "t" then expect "true" (JBool true) s'
          else if Ascii.eqb c "f" then expect "false" (JBool false) s'
          else if Ascii.eqb c DQUOTE then
            parse_bind (string_chars r) (fun t rest => Parsed (JStr t) rest)
          else if Ascii.eqb c "[" then
            match skip_ws r with
            | EmptyString => SyntaxError
            | String c' rest as r' =>
                if Ascii.eqb c' "]" then Parsed (JArr []) rest
                else parse_bind (elements_with fuel r')
                       (fun l rest' => Parsed (JArr l) rest')
            end
          else if Ascii.eqb c "{" then
            match skip_ws r with
            | EmptyString => SyntaxError
            | String c' rest as r' =>
                if Ascii.eqb c' "}" then Parsed (JObj []) rest
                else parse_bind (members_with fuel r')
                       (fun l rest' => Parsed (JObj l) rest')
            end
          else number s'
      end
  end

(** The elements of a non-empty array, up to the closing bracket. *)
with elements_with (fuel : nat) (s : string) : parse_result (list json) :=
  match fuel with
  | O => NotModelled
  | S fuel =>
      parse_bind (value_with fuel s) (fun v rest =>
        match skip_ws rest with
        | String c rest' =>
            if Ascii.eqb c "," then
              parse_bind (elements_with fuel rest')
                (fun l rest'' => Parsed (v :: l) rest'')
            else if Ascii.eqb c "]" then Parsed [v] rest'
            else SyntaxError
        | EmptyString => SyntaxError
        end)
  end

(** The members of a non-empty object, up to the closing brace. *)
with members_with (fuel : nat) (s : string)
  : parse_result (list (string * json)) :=
  match fuel with
  | O => NotModelled
  | S fuel =>
      match skip_ws s with
      | String c r =>
          if Ascii.eqb c DQUOTE then
            parse_bind (string_chars r) (fun k rest =>
              match skip_ws rest with
              | String c1 rest1 =>
                  if Ascii.eqb c1 ":" then
                    parse_bind (value_with fuel rest1) (fun v rest2 =>
                      match skip_ws rest2 with
                      | String c2 rest3 =>
                          if Ascii.eqb c2 "," then
                            parse_bind (members_with fuel rest3)
                              (fun l rest4 => Parsed ((k, v) :: l) rest4)
                          else if Ascii.eqb c2 "}" then Parsed [(k, v)] rest3
                          else SyntaxError
                      | EmptyString => SyntaxError
                      end)
                  else SyntaxError
              | EmptyString => SyntaxError
              end)
          else SyntaxError
      | EmptyString => SyntaxError
      end
  end.

End Descent.

(** The descent that builds the value. *)
Definition parse_value : nat -> string -> parse_result json :=
  value_with parse_string_chars parse_number.
Definition parse_elements : nat -> string -> parse_result (list json) :=
  elements_with parse_string_chars parse_number.
Definition parse_members
  : nat -> string -> parse_result (list (string * json)) :=
  members_with parse_string_chars parse_number.

(** *** The grammar alone

    On a text with a token that [parse_string_chars] or [parse_number]
    does not read, what is left to tell is whether [JSON.parse] throws.
    These two read the tokens of the full grammar and build nothing. *)

(** A string literal, whatever code units its [\u] escapes name. *)
Fixpoint check_string_chars (s : string) : parse_result string :=
  match s with
  | EmptyString => SyntaxError
  | String c r =>
      if Ascii.eqb c DQUOTE then Parsed "" r
      else if Ascii.eqb c "\" then
        match r with
        | EmptyString => SyntaxError
        | String e r1 =>
            if Ascii.eqb e DQUOTE || Ascii.eqb e "\" || Ascii.eqb e "/"
               || Ascii.eqb e "b" || Ascii.eqb e "f" || Ascii.eqb e "n"
               || Ascii.eqb e "r" || Ascii.eqb e "t"
            then check_string_chars r1
            else if Ascii.eqb e "u" then
              match r1 with
              | String h1 (String h2 (String h3 (String h4 r2))) =>
                  match hex_value h1, hex_value h2, hex_value h3, hex_value h4 with
                  | Some _, Some _, Some _, Some _ => check_string_chars r2
                  | _, _, _, _ => SyntaxError
                  end
              | _ => SyntaxError
              end
            else SyntaxError
        end
      else if (N_of_ascii c <? 32)%N then SyntaxError
      else check_string_chars r
  end.

Definition skip_digits (s : string) : string := snd (parse_digits s).

(** An optional fraction: a dot and at least one digit. *)
Definition check_fraction (s : string) : option string :=
  match s with
  | String c r =>
      if Ascii.eqb c "." then
        if starts_with_digit r then Some (skip_digits r) else None
      else Some s
  | EmptyString => Some s
  end.

(** An optional exponent: [e] or [E], an optional sign and at least one
    digit. *)
Definition check_exponent (s : string) : option string :=
  match s with
  | String c r =>
      if Ascii.eqb c "e" || Ascii.eqb c "E" then
        let digits :=
          match r with
          | String c' r' =>
              if Ascii.eqb c' "+" || Ascii.eqb c' "-" then r' else r
          | EmptyString => r
          end in
        if starts_with_digit digits then Some (skip_digits digits) else None
      else Some s
  | EmptyString => Some s
  end.

(** A number: an optional minus sign, the integer part ([0], or a digit
    from 1 to 9 and more digits), the fraction and the exponent. *)
Definition check_number (s : string) : parse_result json :=
  let unsigned :=
    match s with
    | String c r => if Ascii.eqb c "-" then r else s
    | EmptyString => s
    end in
  let integer_end :=
    match unsigned with
    | String c r =>
        if Ascii.eqb c "0" then Some r
        else if is_digit c then Some (skip_digits unsigned)
        else None
    | EmptyString => None
    end in
  match integer_end with
  | Some rest =>
      match check_fraction rest with
      | Some rest1 =>
          match check_exponent rest1 with
          | Some rest2 => Parsed JNull rest2
          | None => SyntaxError
          end
      | None => SyntaxError
      end
  | None => SyntaxError
  end.

(** Whether [text] is one value of the grammar and nothing but white
    space after it: [Parsed] when it is, [SyntaxError] when it is not. *)
Definition check (text : string) : parse_result unit :=
  parse_bind
    (value_with check_string_chars check_number (S (2 * String.length text)) text)
    (fun _ rest =>
       match skip_ws rest with
       | EmptyString => Parsed tt ""
       | _ => SyntaxError
       end).

(** [JSON.parse(text)]: one value, and nothing but white space after it.
    The descent takes at least one character of the text every second
    call, so that this fuel is never used up.  A text that is not of the
    grammar is a [SyntaxError] also when a token that the embedding does
    not read comes before the error. *)
Definition parse (text : string) : parse_result json :=
  match
    parse_bind (parse_value (S (2 * String.length text)) text) (fun v rest =>
      match skip_ws rest with
      | EmptyString => Parsed v ""
      | _ => SyntaxError
      end)
  with
  | Parsed v rest => Parsed v rest
  | SyntaxError => SyntaxError
  | NotModelled =>
      match check text with
      | SyntaxError => SyntaxError
      | _ => NotModelled
      end
  end.

End JSON.
Import JSON.

(** ** The catalog *)

Record ImageEntry : Type := {
  id : Z;
  title : string;
  description : string;
  date : string;
  isFavorite : bool;
  filename : string;
  url : string
}.

Record CatalogStatistics : Type := {
  totalVisits : Z;
  totalImages : Z;
  totalFavorites : Z
}.

Record StoryboardData : Type := {
  images : list ImageEntry;
  stats : CatalogStatistics
}.

(** The value [storyboardData] is initialised with. *)
Definition initial_data : StoryboardData :=
  {| images := [];
     stats := {| totalVisits := 0; totalImages := 0; totalFavorites := 0 |} |}.

(** [storyboardData] as the tree [JSON.stringify] walks, properties in the
    order of their creation. *)
Definition json_of_image (img : ImageEntry) : json :=
  JObj [("id", JNum (id img));
        ("title", JStr (title img));
        ("description", JStr (description img));
        ("date", JStr (date img));
        ("isFavorite", JBool (isFavorite img));
        ("filename", JStr (filename img));
        ("url", JStr (url img))].

Definition json_of_stats (st : CatalogStatistics) : json :=
  JObj [("totalVisits", JNum (totalVisits st));
        ("totalImages", JNum (totalImages st));
        ("totalFavorites", JNum (totalFavorites st))].

Definition json_of_data (d : StoryboardData) : json :=
  JObj [("images", JArr (map json_of_image (images d)));
        ("stats", json_of_stats (stats d))].

(** ** The state of the process and of the disk *)

Record World : Type := {
  storyboardData : StoryboardData;
  data_json : option string;
  uploads : gset string
}.

Definition set_data (d : StoryboardData) (w : World) : World :=
  {| storyboardData := d; data_json := data_json w; uploads := uploads w |}.

Definition set_uploads (u : gset string) (w : World) : World :=
  {| storyboardData := storyboardData w; data_json := data_json w;
     uploads := u |}.

(** ** The file system ([fs]) *)

Module fs.

(** [fs.writeFileSync('data.json', data)]. *)
Definition writeFileSync (data : string) (w : World) : World :=
  {| storyboardData := storyboardData w; data_json := Some data;
     uploads := uploads w |}.

(** [fs.unlinkSync] of a file of the [uploads] directory, given by its
    path relative to the process directory; [None] when it throws.  The
    file names of the directory hold no separator, as the generated names
    do. *)
Definition unlinkSync (path : string) (w : World) : option World :=
  match strip_prefix "uploads/" path with
  | Some name =>
      if decide (name ∈ uploads w)
      then Some (set_uploads (uploads w ∖ {[ name ]}) w)
      else None
  | None => None
  end.

End fs.

(** [saveData()]. *)
Definition saveData (w : World) : World :=
  fs.writeFileSync (JSON.stringify (json_of_data (storyboardData w))) w.

(** ** Responses *)

Inductive payload : Type :=
| SendFile (name : string)
| ImagesJson (imgs : list ImageEntry)
| StatsJson (st : CatalogStatistics)
| ErrorJson (error : string)
| UploadJson (image : ImageEntry) (message : string)
| FavoriteJson (isFav : bool)
| SuccessJson (message : string)
| LoginFailedJson (error : string).

Record response : Type := { status : Z; body : payload }.

Definition ok (p : payload) : response := {| status := 200; body := p |}.
Definition error (code : Z) (msg : string) : response :=
  {| status := code; body := ErrorJson msg |}.

(** ** The error-handling middleware *)

(** The errors that reach it: those of [multer], with their code, and
    the others. *)
Inductive js_error : Type :=
| MulterError (code message : string)
| PlainError (message : string).

Definition error_middleware (e : js_error) : response :=
  match e with
  | MulterError code message =>
      if String.eqb code "LIMIT_FILE_SIZE"
      then error 400 "File too large. Maximum size is 10MB."
      else error 500 message
  | PlainError message => error 500 message
  end.

(** ** The upload middleware ([multer]) *)

(** The file part of a multipart request, as [multer] hands it to
    [fileFilter] and to [storage.filename]: [originalname] is the file name
    that [busboy] has read off the part (its last path component, read as
    Latin-1 unless the part says otherwise), [mimetype] the media type
    that the part declares, in lower case, and [size] the number of bytes
    of the file. *)
Record Attachment : Type := {
  originalname : string;
  mimetype : string;
  size : Z
}.

(** What the handler reads of the run-time environment while it serves an
    upload: the clock at the three places it is read and the random
    integer [Math.round(Math.random() * 1E9)]. *)
Record Env : Type := {
  now_storage : Z;
  random : Z;
  now_id : Z;
  now_iso : string
}.

(** [storage.filename]. *)
Definition storage_filename (ev : Env) (file : Attachment) : string :=
  Number_toString (now_storage ev) ++ "-" ++ Number_toString (random ev)
    ++ path.extname (originalname file).

(** [fileFilter]. *)
Definition fileFilter (file : Attachment) : bool :=
  String.prefix "image/" (mimetype file).

Definition fileSize_limit : Z := 10 * 1024 * 1024.

(** [limits.fieldSize], which the server leaves at the default of
    [busboy]. *)
Definition fieldSize_limit : Z := 1024 * 1024.

(** The value of a text field is cut when its bytes reach the limit. *)
Definition valueTruncated (field : option string) : bool :=
  match field with
  | Some value => fieldSize_limit <=? Z.of_nat (String.length value)
  | None => false
  end.

(** [req.file] as [multer] leaves it. *)
Record File : Type := {
  file_originalname : string;
  file_mimetype : string;
  file_filename : string;
  file_path : string
}.

(** [upload.single('image')], on a body with at most one file part, named
    [image], and at most one field [title] and one field [description],
    whose values are [req_title] and [req_description] as the client sent
    them.  The parts are read in the order of the body and the first error
    ends the reading; the embedding takes the text fields first, as a form
    sends them that lists them before the file (which parts are in error,
    and so whether the upload is accepted, does not depend on the order).
    A field cut at the limit is an error.  A file part without a file name
    is passed over.  The file is filtered, then stored under the generated
    name, and removed again when its size reaches the limit.  [inl] is the
    answer of the error middleware to the error that [multer] hands on. *)
Definition upload_single (ev : Env) (att : option Attachment)
    (req_title req_description : option string) (w : World)
  : World * (response + option File) :=
  if valueTruncated req_title || valueTruncated req_description then
    (w, inl (error_middleware
               (MulterError "LIMIT_FIELD_VALUE" "Field value too long")))
  else
    match att with
    | None => (w, inr None)
    | Some file =>
        if String.eqb (originalname file) "" then (w, inr None)
        else if fileFilter file then
          let uniqueName := storage_filename ev file in
          if size file <? fileSize_limit then
            (set_uploads ({[ uniqueName ]} ∪ uploads w) w,
             inr (Some {| file_originalname := originalname file;
                          file_mimetype := mimetype file;
                          file_filename := uniqueName;
                          file_path := "uploads/" ++ uniqueName |}))
          else
            (set_uploads (uploads w ∖ {[ uniqueName ]}) w,
             inl (error_middleware
                    (MulterError "LIMIT_FILE_SIZE" "File too large")))
        else
          (w, inl (error_middleware
                     (PlainError "Only image files are allowed!")))
    end.

(** ** The routes *)

(** A text field of a request body: absent, or a string. *)
Definition truthy (field : option string) : bool :=
  match field with
  | Some (String _ _) => true
  | _ => false
  end.

(** What is at [public/index.html] when a request for [/] arrives: the
    page, or no file, and then [message] is the message of the error that
    [res.sendFile] raises. *)
Inductive landing_page : Type :=
| PagePresent
| PageMissing (message : string).

(** [express.static('public')], which comes before the routes, on a
    plain [GET] request for [/]: it sends the page when it is there, and
    leaves the request to the routes ([None]) when it is not. *)
Definition express_static (page : landing_page) : option response :=
  match page with
  | PagePresent => Some (ok (SendFile "public/index.html"))
  | PageMissing _ => None
  end.

(** The route [GET /]: the visit is counted and saved, then the page is
    sent; when there is none the error of [res.sendFile] goes to the error
    middleware. *)
Definition get_root (page : landing_page) (w : World) : World * response :=
  let d := storyboardData w in
  let st := stats d in
  let d' := {| images := images d;
               stats := {| totalVisits := increment (totalVisits st);
                           totalImages := totalImages st;
                           totalFavorites := totalFavorites st |} |} in
  (saveData (set_data d' w),
   match page with
   | PagePresent => ok (SendFile "public/index.html")
   | PageMissing message => error_middleware (PlainError message)
   end).

(** [GET /api/images]. *)
Definition get_images (w : World) : World * response :=
  (w, ok (ImagesJson (images (storyboardData w)))).

(** [GET /api/stats]. *)
Definition get_stats (w : World) : World * response :=
  (w, ok (StatsJson (stats (storyboardData w)))).

(** [POST /api/upload], after [upload.single('image')]. *)
Definition post_upload (ev : Env) (file : option File)
    (req_title req_description : option string) (w : World)
  : World * response :=
  match file with
  | None => (w, error 400 "No image file provided")
  | Some f =>
      if negb (truthy req_title) || negb (truthy req_description) then
        match fs.unlinkSync (file_path f) w with
        | Some w' => (w', error 400 "Title and description are required")
        | None => (w, error 500 "Failed to upload image")
        end
      else
        let newImage :=
          {| id := now_id ev;
             title := default "" req_title;
             description := default "" req_description;
             date := now_iso ev;
             isFavorite := false;
             filename := file_filename f;
             url := "/uploads/" ++ file_filename f |} in
        let d := storyboardData w in
        let imgs := newImage :: images d in
        let st := stats d in
        let d' := {| images := imgs;
                     stats := {| totalVisits := totalVisits st;
                                 totalImages := Z.of_nat (length imgs);
                                 totalFavorites := totalFavorites st |} |} in
        (saveData (set_data d' w),
         ok (UploadJson newImage "Image uploaded successfully"))
  end.

(** [img.id === imageId]. *)
Definition has_id (imageId : option Z) (img : ImageEntry) : Prop :=
  imageId = Some (id img).

#[global] Instance has_id_dec imageId img : Decision (has_id imageId img).
Proof. unfold has_id. solve_decision. Defined.

(** [images.filter(img => img.isFavorite).length]. *)
Definition count_favorites (imgs : list ImageEntry) : Z :=
  Z.of_nat (length (List.filter isFavorite imgs)).

Definition toggle (img : ImageEntry) : ImageEntry :=
  {| id := id img; title := title img; description := description img;
     date := date img; isFavorite := negb (isFavorite img);
     filename := filename img; url := url img |}.

(** The body of [POST /api/favorite/:id], from the parsed [imageId] on. *)
Definition toggleFavorite (imageId : option Z) (w : World) : World * response :=
  let d := storyboardData w in
  match list_find (has_id imageId) (images d) with
  | Some (i, image) =>
      let image' := toggle image in
      let imgs := <[ i := image' ]> (images d) in
      let st := stats d in
      let d' := {| images := imgs;
                   stats := {| totalVisits := totalVisits st;
                               totalImages := totalImages st;
                               totalFavorites := count_favorites imgs |} |} in
      (saveData (set_data d' w), ok (FavoriteJson (isFavorite image')))
  | None => (w, error 404 "Image not found")
  end.

(** [POST /api/favorite/:id]. *)
Definition post_favorite (param : string) (w : World) : World * response :=
  let imageId := parseInt param in
  toggleFavorite imageId w.

(** The body of [DELETE /api/images/:id], from the parsed [imageId] on.
    The entry's file is removed when it is there; a failure is logged and
    ignored. *)
Definition deleteImage (imageId : option Z) (w : World) : World * response :=
  let d := storyboardData w in
  match list_find (has_id imageId) (images d) with
  | Some (imageIndex, image) =>
      let w1 := default w (fs.unlinkSync ("uploads/" ++ filename image) w) in
      let imgs := delete imageIndex (images d) in
      let st := stats d in
      let d' := {| images := imgs;
                   stats := {| totalVisits := totalVisits st;
                               totalImages := Z.of_nat (length imgs);
                               totalFavorites := count_favorites imgs |} |} in
      (saveData (set_data d' w1), ok (SuccessJson "Image deleted successfully"))
  | None => (w, error 404 "Image not found")
  end.

(** [DELETE /api/images/:id]. *)
Definition delete_image (param : string) (w : World) : World * response :=
  let imageId := parseInt param in
  deleteImage imageId w.

(** [value === s] for a value of a parsed JSON body; [None] is
    [undefined]. *)
Definition strict_equal_string (value : option json) (s : string) : bool :=
  match value with
  | Some (JStr t) => String.eqb t s
  | _ => false
  end.

(** [POST /api/login]; [password] is the property of the body that
    [express.json()] parsed, [None] when the body has none (the body of a
    request without one is the empty object). *)
Definition post_login (password : option json) (w : World) : World * response :=
  if strict_equal_string password "admin"
  then (w, ok (SuccessJson "Login successful"))
  else (w, {| status := 401; body := LoginFailedJson "Invalid password" |}).

(** ** Requests and runs of the server *)

Inductive request : Type :=
| GetRoot (page : landing_page)
| GetImages
| GetStats
| PostUpload (ev : Env) (att : option Attachment)
    (req_title req_description : option string)
| PostFavorite (param : string)
| DeleteImage (param : string)
| PostLogin (password : option json).

Definition serve (r : request) (w : World) : World * response :=
  match r with
  | GetRoot page =>
      match express_static page with
      | Some answer => (w, answer)
      | None => get_root page w
      end
  | GetImages => get_images w
  | GetStats => get_stats w
  | PostUpload ev att t d =>
      match upload_single ev att t d w with
      | (w1, inl err) => (w1, err)
      | (w1, inr file) => post_upload ev file t d w1
      end
  | PostFavorite param => post_favorite param w
  | DeleteImage param => delete_image param w
  | PostLogin password => post_login password w
  end.

(** The requests are served one at a time, in the order of arrival. *)
Fixpoint run (rs : list request) (w : World) : World :=
  match rs with
  | [] => w
  | r :: rs' => run rs' (fst (serve r w))
  end.

(** ** Start-up: the document is read back *)

Definition image_of_json (v : json) : option ImageEntry :=
  match v with
  | JObj [("id", JNum i); ("title", JStr t); ("description", JStr d);
          ("date", JStr dt); ("isFavorite", JBool b); ("filename", JStr f);
          ("url", JStr u)] =>
      Some {| id := i; title := t; description := d; date := dt;
              isFavorite := b; filename := f; url := u |}
  | _ => None
  end.

Definition stats_of_json (v : json) : option CatalogStatistics :=
  match v with
  | JObj [("totalVisits", JNum a); ("totalImages", JNum b);
          ("totalFavorites", JNum c)] =>
      Some {| totalVisits := a; totalImages := b; totalFavorites := c |}
  | _ => None
  end.

Fixpoint images_of_json (l : list json) : option (list ImageEntry) :=
  match l with
  | [] => Some []
  | v :: l' =>
      match image_of_json v, images_of_json l' with
      | Some img, Some imgs => Some (img :: imgs)
      | _, _ => None
      end
  end.

(** The parsed document as a catalog, when it is one: an object of the
    shape [saveData] writes. *)
Definition data_of_json (v : json) : option StoryboardData :=
  match v with
  | JObj [("images", JArr l); ("stats", st)] =>
      match images_of_json l, stats_of_json st with
      | Some imgs, Some st' => Some {| images := imgs; stats := st' |}
      | _, _ => None
      end
  | _ => None
  end.

(** What [storyboardData] holds once the start-up code has run.
    [Loaded d] is the catalog [d], read from an object whose members are
    those that [saveData] writes, in that order.  [Untyped v] is any other
    value [v] of the document, members in another order included: the
    server keeps it as it is, and the handlers, which are embedded on
    catalogs of the first kind, are not followed on it.  [Opaque] is a
    document that [JSON.parse] reads and the embedding does not. *)
Inductive loaded : Type :=
| Loaded (d : StoryboardData)
| Untyped (v : json)
| Opaque.

(** The [try] block at start-up, on the content of [data.json] ([None]
    when the file does not exist). *)
Definition load (doc : option string) : loaded :=
  match doc with
  | None => Loaded initial_data
  | Some data =>
      match JSON.parse data with
      | Parsed v _ =>
          match data_of_json v with
          | Some d => Loaded d
          | None => Untyped v
          end
      | SyntaxError => Loaded initial_data
      | NotModelled => Opaque
      end
  end.

(** ** The invariant of the counters *)

(** The two derived counters agree with the sequence of images. *)
Definition consistent (d : StoryboardData) : Prop :=
  totalImages (stats d) = Z.of_nat (length (images d))
  /\ totalFavorites (stats d) = count_favorites (images d).

(** The states of the catalog that the server can be in after start-up
    from no document. *)
Inductive reachable : StoryboardData -> Prop :=
| reachable_initial : reachable initial_data
| reachable_serve (r : request) (w : World) :
    reachable (storyboardData w) ->
    reachable (storyboardData (fst (serve r w))).

(** The document on disk is the one a restart would read the current
    catalog from. *)
Definition in_sync (w : World) : Prop :=
  load (data_json w) = Loaded (storyboardData w).

(** ** Notions used in the statements and in the proofs *)

(** [c] occurs in [s]. *)
Definition occurs (c : ascii) (s : string) : Prop :=
  In c (list_ascii_of_string s).

(** What the loop of [path.extname] knows when [k] characters are left to
    scan: once the end of the last component is marked, no separator lies
    between the scan position and the mark, and the dot lies there too. *)
Definition scan_inv (l : list ascii) (k : Z) (st : extname_state) : Prop :=
  (end_ st = -1 /\ startDot st = -1 /\ matchedSlash st = true)
  \/ (matchedSlash st = false
      /\ k <= end_ st
      /\ (startDot st = -1 \/ k <= startDot st < end_ st)
      /\ forall (j : nat) (x : ascii),
           l !! j = Some x -> k <= Z.of_nat j < end_ st -> x <> "/"%char).

(** What the serializer puts after a value: nothing, a comma or a line
    feed. *)
Definition value_end (s : string) : bool :=
  match s with
  | EmptyString => true
  | String c _ => Ascii.eqb c "," || Ascii.eqb c LF
  end.

(** A text of JSON white space. *)
Fixpoint all_ws (s : string) : bool :=
  match s with
  | EmptyString => true
  | String c r => is_json_ws c && all_ws r
  end.

(** The characters a serialized value can start with. *)
Definition value_start (c : ascii) : bool :=
  is_digit c || Ascii.eqb c "-" || Ascii.eqb c "n" || Ascii.eqb c "t"
  || Ascii.eqb c "f" || Ascii.eqb c DQUOTE || Ascii.eqb c "["
  || Ascii.eqb c "{".

(** The number of values and list cells of a value. *)
Fixpoint json_size (v : json) : nat :=
  match v with
  | JArr elements =>
      S (list_sum (map (fun x => S (json_size x)) elements))
  | JObj members =>
      S (list_sum (map (fun kv => S (json_size (snd kv))) members))
  | _ => 1
  end.

(** ** Sample states *)

Definition sample_env : Env :=
  {| now_storage := 1700000000000; random := 123456789;
     now_id := 1700000000001; now_iso := "2023-11-14T22:13:20.001Z" |}.

Definition sample_png : Attachment :=
  {| originalname := "cat.png"; mimetype := "image/png"; size := 2048 |}.

Definition sample_jpg : Attachment :=
  {| originalname := "cat.jpg"; mimetype := "image/png"; size := 2048 |}.

Definition sample_traversal : Attachment :=
  {| originalname := "../../etc/passwd.png"; mimetype := "image/png";
     size := 2048 |}.

Definition sample_file : File :=
  {| file_originalname := "cat.png"; file_mimetype := "image/png";
     file_filename := "1700000000000-123456789.png";
     file_path := "uploads/1700000000000-123456789.png" |}.

Definition sample_entry (n : Z) (fav : bool) : ImageEntry :=
  {| id := n; title := "t"; description := "d";
     date := "2023-11-14T22:13:20.001Z"; isFavorite := fav;
     filename := Number_toString n ++ "-1.png";
     url := "/uploads/" ++ Number_toString n ++ "-1.png" |}.

Definition sample_world : World :=
  {| storyboardData :=
       {| images := [sample_entry 7 true; sample_entry 5 false;
                     sample_entry 16 false];
          stats := {| totalVisits := 3; totalImages := 3;
                      totalFavorites := 1 |} |};
     data_json := None;
     uploads := {[ "7-1.png"; "5-1.png"; "16-1.png" ]} |}.

(** ** Notions used in the further properties *)

(** The requests for [/] that reach the route: those that arrive when
    [express.static] finds no page. *)
Definition reaches_route (r : request) : bool :=
  match r with
  | GetRoot (PageMissing _) => true
  | _ => false
  end.

(** Their number in a run. *)
Definition routed_visits (rs : list request) : Z :=
  Z.of_nat (length (List.filter reaches_route rs)).

(** The readings of the clock that the uploads of a run take for the id
    of their entry, in the order of the requests. *)
Fixpoint upload_ids (rs : list request) : list Z :=
  match rs with
  | [] => []
  | PostUpload ev _ _ _ :: rs' => now_id ev :: upload_ids rs'
  | _ :: rs' => upload_ids rs'
  end.

(** What a run needs of one request for its file name to be new: when
    [multer] stores the file, no file of [uploads] has the name yet. *)
Definition fresh_for (r : request) (w : World) : Prop :=
  match r with
  | PostUpload ev (Some att) _ _ =>
      fileFilter att = true -> storage_filename ev att ∉ uploads w
  | _ => True
  end.

(** Every name that [multer] generates in the run is new. *)
Fixpoint fresh_names (rs : list request) (w : World) : Prop :=
  match rs with
  | [] => True
  | r :: rs' => fresh_for r w /\ fresh_names rs' (fst (serve r w))
  end.

(** The files of [uploads] are the files of the entries, one for each. *)
Definition files_match (w : World) : Prop :=
  NoDup (map filename (images (storyboardData w)))
  /\ uploads w = list_to_set (map filename (images (storyboardData w))).

(** An entry as the upload handler builds it: both texts are there, the
    url is the public path of the file, and the file name is a single
    path segment. *)
Definition well_formed (img : ImageEntry) : Prop :=
  title img <> ""
  /\ description img <> ""
  /\ url img = "/uploads/" ++ filename img
  /\ ~ occurs "/" (filename img).

(** The characters of an extension: neither a separator nor a dot. *)
Definition plain_char (x : ascii) : Prop := x <> "/"%char /\ x <> "."%char.

(** A run of three uploads, two requests for the page, a toggle and a
    deletion. *)
Definition sample_env_at (t : Z) : Env :=
  {| now_storage := t; random := 42; now_id := t;
     now_iso := "2023-11-14T22:13:20.001Z" |}.

Definition sample_requests : list request :=
  [PostUpload (sample_env_at 1700000000001) (Some sample_png)
     (Some "Cat") (Some "A cat");
   GetRoot PagePresent;
   PostUpload (sample_env_at 1700000000002) (Some sample_jpg)
     (Some "Dog") (Some "A dog");
   PostUpload (sample_env_at 1700000000003) (Some sample_png)
     None (Some "No title");
   PostFavorite "1700000000001";
   DeleteImage "1700000000002";
   GetRoot (PageMissing "ENOENT: no such file or directory")].

Definition empty_world : World :=
  {| storyboardData := initial_data; data_json := None; uploads := ∅ |}.

(** * Properties *)

(** Case analysis on the eight bits of a character. *)
Ltac ascii_cases c := destruct c as [[] [] [] [] [] [] [] []].

(** ** Basic facts about the model *)

Lemma storyboardData_unlink path w :
  storyboardData (default w (fs.unlinkSync path w)) = storyboardData w.
Proof.
  unfold fs.unlinkSync. destruct (strip_prefix _ _); [|reflexivity].
  destruct (decide _); reflexivity.
Qed.

Lemma count_favorites_cons img imgs :
  count_favorites (img :: imgs)
  = (if isFavorite img then 1 else 0) + count_favorites imgs.
Proof.
  unfold count_favorites. simpl. destruct (isFavorite img); simpl length; lia.
Qed.

Lemma upload_single_data ev att t d w :
  storyboardData (fst (upload_single ev att t d w)) = storyboardData w.
Proof.
  unfold upload_single.
  destruct (valueTruncated t || valueTruncated d); [reflexivity|].
  destruct att as [file|]; [|reflexivity].
  destruct (String.eqb (originalname file) ""); [reflexivity|].
  destruct (fileFilter file); [|reflexivity].
  destruct (size file <? fileSize_limit); reflexivity.
Qed.

(** Every handler keeps the counters in step with the images. *)
Lemma serve_consistent r w :
  consistent (storyboardData w) -> consistent (storyboardData (fst (serve r w))).
Proof.
  intros [Hlen Hfav]. destruct r; simpl.
  - destruct page; split; simpl; assumption.
  - split; assumption.
  - split; assumption.
  - pose proof (upload_single_data ev att req_title req_description w) as Hd.
    destruct (upload_single ev att req_title req_description w)
      as [w1 [err|file]]; simpl in *.
    + rewrite Hd. split; assumption.
    + unfold post_upload. destruct file as [f|]; simpl.
      * destruct (negb (truthy req_title) || negb (truthy req_description)).
        -- destruct (fs.unlinkSync (file_path f) w1) as [w2|] eqn:Hu; simpl.
           ++ pose proof (storyboardData_unlink (file_path f) w1) as Hk.
              rewrite Hu in Hk. simpl in Hk. rewrite Hk, Hd. split; assumption.
           ++ rewrite Hd. split; assumption.
        -- split; simpl; [reflexivity|].
           rewrite count_favorites_cons. simpl. rewrite Hd. exact Hfav.
      * rewrite Hd. split; assumption.
  - unfold post_favorite, toggleFavorite.
    destruct (list_find _ _) as [[i image]|]; simpl.
    + split; simpl; [|reflexivity]. rewrite length_insert. exact Hlen.
    + split; assumption.
  - unfold delete_image, deleteImage.
    destruct (list_find _ _) as [[i image]|]; simpl.
    + split; reflexivity.
    + split; assumption.
  - unfold post_login. destruct (strict_equal_string _ _); split; assumption.
Qed.

Lemma reachable_consistent d : reachable d -> consistent d.
Proof.
  induction 1 as [|r w _ IH].
  - split; reflexivity.
  - apply serve_consistent, IH.
Qed.

Lemma run_reachable rs w :
  reachable (storyboardData w) -> reachable (storyboardData (run rs w)).
Proof.
  revert w. induction rs as [|r rs IH]; intros w Hw; simpl; [exact Hw|].
  apply IH. constructor. exact Hw.
Qed.

(** C1. In every state that a finite sequence of requests (uploads,
    favorite toggles, deletions, page visits and the read-only routes)
    produces from the empty catalog, [totalImages] is the length of
    [images] and [totalFavorites] is the number of entries of [images]
    whose [isFavorite] is true. *)
Theorem counters_never_drift (rs : list request) (doc : option string)
    (blobs : gset string) :
  let d := storyboardData
             (run rs {| storyboardData := initial_data; data_json := doc;
                        uploads := blobs |}) in
  totalImages (stats d) = Z.of_nat (length (images d))
  /\ totalFavorites (stats d)
     = Z.of_nat (length (List.filter isFavorite (images d))).
Proof.
  apply reachable_consistent, run_reachable. simpl. constructor.
Qed.

(** ** Upload of a valid image *)

(** C2. When the request carries a file and non-empty [title] and
    [description], the handler puts the new entry at index 0 of [images],
    keeps the entries that were there, in their order, behind it, and sets
    [totalImages] to the length of the new sequence. *)
Theorem upload_inserts_at_front (ev : Env) (f : File) (t dsc : string)
    (w : World) :
  t <> "" -> dsc <> "" ->
  let newImage :=
    {| id := now_id ev; title := t; description := dsc; date := now_iso ev;
       isFavorite := false; filename := file_filename f;
       url := "/uploads/" ++ file_filename f |} in
  let w' := fst (post_upload ev (Some f) (Some t) (Some dsc) w) in
  let imgs' := images (storyboardData w') in
  imgs' = newImage :: images (storyboardData w)
  /\ imgs' !! 0%nat = Some newImage
  /\ (forall i : nat, imgs' !! S i = images (storyboardData w) !! i)
  /\ totalImages (stats (storyboardData w')) = Z.of_nat (length imgs')
  /\ snd (post_upload ev (Some f) (Some t) (Some dsc) w)
     = ok (UploadJson newImage "Image uploaded successfully").
Proof.
  intros Ht Hd. unfold post_upload.
  destruct t as [|a t]; [congruence|]. destruct dsc as [|b dsc]; [congruence|].
  simpl. repeat split.
Qed.

Lemma upload_inserts_at_front_witness :
  images (storyboardData
            (fst (post_upload sample_env (Some sample_file) (Some "t")
                    (Some "d") sample_world)))
  = {| id := 1700000000001; title := "t"; description := "d";
       date := "2023-11-14T22:13:20.001Z"; isFavorite := false;
       filename := "1700000000000-123456789.png";
       url := "/uploads/1700000000000-123456789.png" |}
    :: images (storyboardData sample_world).
Proof.
  exact (proj1 (upload_inserts_at_front sample_env sample_file "t" "d"
                  sample_world ltac:(discriminate) ltac:(discriminate))).
Defined.

(** The same through the whole route: an image below the size limit, with
    its two texts, is stored under the generated name and listed first. *)
Lemma upload_route_inserts (ev : Env) (att : Attachment) (t dsc : string)
    (w : World) :
  originalname att <> "" ->
  fileFilter att = true -> size att < fileSize_limit ->
  valueTruncated (Some t) = false -> valueTruncated (Some dsc) = false ->
  t <> "" -> dsc <> "" ->
  let newImage :=
    {| id := now_id ev; title := t; description := dsc; date := now_iso ev;
       isFavorite := false; filename := storage_filename ev att;
       url := "/uploads/" ++ storage_filename ev att |} in
  let w' := fst (serve (PostUpload ev (Some att) (Some t) (Some dsc)) w) in
  images (storyboardData w') = newImage :: images (storyboardData w)
  /\ uploads w' = {[ storage_filename ev att ]} ∪ uploads w.
Proof.
  intros Hname Hfilter Hsize Htt Htd Ht Hd. unfold serve, upload_single.
  rewrite Htt, Htd. apply String.eqb_neq in Hname. simpl orb. cbv iota.
  rewrite Hname, Hfilter.
  destruct (Z.ltb_spec (size att) fileSize_limit); [|lia].
  destruct t as [|a t]; [congruence|]. destruct dsc as [|b dsc]; [congruence|].
  split; reflexivity.
Qed.

(** ** Finding an entry by its id *)

(** What [find] and [findIndex] return: the first entry with the id. *)
Lemma list_find_split (imageId : option Z) (imgs : list ImageEntry) i image :
  list_find (has_id imageId) imgs = Some (i, image) ->
  imgs = (take i imgs ++ image :: drop (S i) imgs)%list
  /\ has_id imageId image
  /\ (forall x, x ∈ take i imgs -> ~ has_id imageId x).
Proof.
  intros Hfind. apply list_find_Some in Hfind as (Hi & Hid & Hfirst).
  split; [symmetry; apply take_drop_middle, Hi|]. split; [exact Hid|].
  intros x Hx. apply list_elem_of_lookup_1 in Hx as [j Hj].
  apply lookup_take_Some in Hj as [Hj Hlt]. exact (Hfirst j x Hj Hlt).
Qed.

Lemma list_find_absent (imageId : option Z) (imgs : list ImageEntry) :
  (forall img, img ∈ imgs -> ~ has_id imageId img) ->
  list_find (has_id imageId) imgs = None.
Proof.
  intros Habs. apply list_find_None, Forall_forall. exact Habs.
Qed.

Lemma list_find_present (imageId : option Z) (imgs : list ImageEntry) :
  (exists img, img ∈ imgs /\ has_id imageId img) ->
  exists i image, list_find (has_id imageId) imgs = Some (i, image).
Proof.
  intros (img & Hin & Hid).
  destruct (list_find_elem_of (has_id imageId) imgs img Hin Hid) as [[i x] H].
  exists i, x. exact H.
Qed.

Lemma toggle_toggle img : toggle (toggle img) = img.
Proof. destruct img. unfold toggle. simpl. rewrite negb_involutive. reflexivity. Qed.

(** Flipping the flag of the entry found leaves it the entry found. *)
Lemma list_find_toggle (imageId : option Z) (imgs : list ImageEntry) i image :
  list_find (has_id imageId) imgs = Some (i, image) ->
  list_find (has_id imageId) (<[ i := toggle image ]> imgs)
  = Some (i, toggle image).
Proof.
  intros Hfind. apply list_find_Some in Hfind as (Hi & Hid & Hfirst).
  apply list_find_Some. split; [|split].
  - apply list_lookup_insert_eq. eapply lookup_lt_Some, Hi.
  - exact Hid.
  - intros j y Hj Hlt. rewrite list_lookup_insert_ne in Hj by lia.
    exact (Hfirst j y Hj Hlt).
Qed.

(** ** Deletion *)

(** C3. When some entry has the id, [delete] removes the first such entry
    from [images] and keeps the others in order, sets [totalImages] to the
    new length and [totalFavorites] to the number of favourites left, and
    answers with success; when no entry has the id it answers 404 and
    leaves the whole state as it was. *)
Theorem delete_removes_entry (imageId : option Z) (w : World) :
  let d := storyboardData w in
  let w' := fst (deleteImage imageId w) in
  let d' := storyboardData w' in
  ((exists img, img ∈ images d /\ has_id imageId img) ->
   exists before image after,
     images d = (before ++ image :: after)%list
     /\ has_id imageId image
     /\ (forall x, x ∈ before -> ~ has_id imageId x)
     /\ images d' = (before ++ after)%list
     /\ totalImages (stats d') = Z.of_nat (length (images d'))
     /\ totalFavorites (stats d')
        = Z.of_nat (length (List.filter isFavorite (images d')))
     /\ totalVisits (stats d') = totalVisits (stats d)
     /\ snd (deleteImage imageId w) = ok (SuccessJson "Image deleted successfully"))
  /\ ((forall img, img ∈ images d -> ~ has_id imageId img) ->
      w' = w /\ snd (deleteImage imageId w) = error 404 "Image not found").
Proof.
  simpl. split.
  - intros Hex. apply list_find_present in Hex as (i & image & Hfind).
    unfold deleteImage. rewrite Hfind. simpl.
    apply list_find_split in Hfind as (Hsplit & Hid & Hfirst).
    exists (take i (images (storyboardData w))), image,
           (drop (S i) (images (storyboardData w))).
    repeat split; try assumption. apply delete_take_drop.
  - intros Habs. unfold deleteImage.
    rewrite (list_find_absent _ _ Habs). split; reflexivity.
Qed.

Lemma delete_removes_entry_witness :
  exists before image after,
    images (storyboardData sample_world) = (before ++ image :: after)%list
    /\ id image = 5
    /\ images (storyboardData (fst (deleteImage (Some 5) sample_world)))
       = (before ++ after)%list.
Proof.
  destruct (proj1 (delete_removes_entry (Some 5) sample_world))
    as (before & image & after & H1 & H2 & _ & H4 & _).
  - exists (sample_entry 5 false). split; [|reflexivity].
    apply list_elem_of_In. simpl. tauto.
  - exists before, image, after. split; [exact H1|]. split; [|exact H4].
    unfold has_id in H2. congruence.
Defined.

(** ** The favorite flag *)

(** C5. When no entry has the id, [toggleFavorite] answers 404 and the
    state (images, the three counters, the document, the files) is the
    one before the call. *)
Theorem toggle_unknown_id (imageId : option Z) (w : World) :
  (forall img, img ∈ images (storyboardData w) -> ~ has_id imageId img) ->
  toggleFavorite imageId w = (w, error 404 "Image not found").
Proof.
  intros Habs. unfold toggleFavorite.
  rewrite (list_find_absent _ _ Habs). reflexivity.
Qed.

Lemma toggle_unknown_id_witness :
  toggleFavorite (Some 6) sample_world
  = (sample_world, error 404 "Image not found").
Proof.
  apply toggle_unknown_id. intros img Hin Hid.
  apply list_elem_of_In in Hin. unfold has_id in Hid. simpl in Hin.
  destruct Hin as [<-|[<-|[<-|[]]]]; discriminate Hid.
Defined.

(** C4. For an id that some entry has, two calls of [toggleFavorite] in a
    row give back the sequence of images they started from, so the entry's
    [isFavorite] has its original value (the first call answers with the
    flipped value, the second with the original one), and [totalFavorites]
    is the original number of favourites; the other counters are not
    touched, and a catalog whose [totalFavorites] was that number is
    restored as a whole. *)
Theorem toggle_twice_restores (imageId : option Z) (w : World) :
  (exists img, img ∈ images (storyboardData w) /\ has_id imageId img) ->
  let d := storyboardData w in
  let r1 := toggleFavorite imageId w in
  let r2 := toggleFavorite imageId (fst r1) in
  let d2 := storyboardData (fst r2) in
  images d2 = images d
  /\ (exists i img,
        list_find (has_id imageId) (images d) = Some (i, img)
        /\ images d2 !! i = Some img
        /\ snd r1 = ok (FavoriteJson (negb (isFavorite img)))
        /\ snd r2 = ok (FavoriteJson (isFavorite img)))
  /\ totalFavorites (stats d2)
     = Z.of_nat (length (List.filter isFavorite (images d)))
  /\ totalImages (stats d2) = totalImages (stats d)
  /\ totalVisits (stats d2) = totalVisits (stats d)
  /\ (totalFavorites (stats d)
      = Z.of_nat (length (List.filter isFavorite (images d))) -> d2 = d).
Proof.
  intros Hex. apply list_find_present in Hex as (i & img & Hfind). simpl.
  pose proof (list_find_toggle _ _ _ _ Hfind) as Hfind1.
  assert (Hi : images (storyboardData w) !! i = Some img)
    by (apply list_find_Some in Hfind; tauto).
  assert (Hback : <[ i := toggle (toggle img) ]>
                    (<[ i := toggle img ]> (images (storyboardData w)))
                  = images (storyboardData w)).
  { rewrite list_insert_insert_eq, toggle_toggle. apply list_insert_id, Hi. }
  unfold toggleFavorite at 2 3 4 5 6 7.
  unfold toggleFavorite. rewrite Hfind. simpl. rewrite Hfind1. simpl.
  rewrite Hback. rewrite negb_involutive.
  split; [reflexivity|]. split; [exists i, img; auto|].
  split; [reflexivity|]. split; [reflexivity|]. split; [reflexivity|].
  intros Hfav. destruct (storyboardData w) as [imgs [v n f]]. simpl in *.
  unfold count_favorites. rewrite <- Hfav. reflexivity.
Qed.

Lemma toggle_twice_restores_witness :
  storyboardData
    (fst (toggleFavorite (Some 5) (fst (toggleFavorite (Some 5) sample_world))))
  = storyboardData sample_world.
Proof.
  apply (toggle_twice_restores (Some 5) sample_world).
  - exists (sample_entry 5 false). split; [|reflexivity].
    apply list_elem_of_In. simpl. tauto.
  - reflexivity.
Defined.

(** ** Login *)

(** C9. The login handler answers 200 when the password of the request
    is the string [admin] and 401 for every other value, an absent one
    included; it leaves the state alone in both cases. *)
Theorem login_admin_only (password : option json) (w : World) :
  (password = Some (JStr "admin") ->
   post_login password w = (w, ok (SuccessJson "Login successful")))
  /\ (password <> Some (JStr "admin") ->
      post_login password w
      = (w, {| status := 401; body := LoginFailedJson "Invalid password" |}))
  /\ fst (post_login password w) = w.
Proof.
  unfold post_login, strict_equal_string. split; [|split].
  - intros ->. reflexivity.
  - intros Hne. destruct password as [[]|]; try reflexivity.
    destruct (String.eqb_spec s "admin") as [->|Hs]; [congruence|reflexivity].
  - destruct password as [[]|]; try reflexivity.
    destruct (String.eqb s "admin"); reflexivity.
Qed.

Lemma login_admin_only_witness :
  post_login (Some (JStr "admin")) sample_world
  = (sample_world, ok (SuccessJson "Login successful"))
  /\ post_login (Some (JStr "Admin")) sample_world
     = (sample_world,
        {| status := 401; body := LoginFailedJson "Invalid password" |}).
Proof.
  split.
  - apply (login_admin_only (Some (JStr "admin")) sample_world). reflexivity.
  - apply (login_admin_only (Some (JStr "Admin")) sample_world). discriminate.
Defined.

(** ** Upload without the required text *)

Lemma strip_prefix_app (p s : string) : strip_prefix p (p ++ s) = Some s.
Proof.
  induction p as [|a p IH]; simpl; [reflexivity|].
  rewrite Ascii.eqb_refl. exact IH.
Qed.

Lemma truthy_false (field : option string) :
  field = None \/ field = Some "" -> truthy field = false.
Proof. intros [->| ->]; reflexivity. Qed.

(** The handler on a stored file and an incomplete body. *)
Lemma post_upload_incomplete (ev : Env) (f : File)
    (req_title req_description : option string) (w : World) :
  file_path f = "uploads/" ++ file_filename f ->
  file_filename f ∈ uploads w ->
  truthy req_title = false \/ truthy req_description = false ->
  post_upload ev (Some f) req_title req_description w
  = (set_uploads (uploads w ∖ {[ file_filename f ]}) w,
     error 400 "Title and description are required").
Proof.
  intros Hpath Hin Hmiss. unfold post_upload.
  replace (negb (truthy req_title) || negb (truthy req_description))
    with true by (destruct Hmiss as [-> | ->]; simpl;
                  [reflexivity | rewrite orb_true_r; reflexivity]).
  unfold fs.unlinkSync. rewrite Hpath, strip_prefix_app.
  destruct (decide (file_filename f ∈ uploads w)) as [_|Hn];
    [reflexivity | contradiction].
Qed.

(** C6. When [multer] has stored the attachment and the title or the
    description is absent or empty, the handler removes the stored file,
    answers 400, and leaves the catalog and its document untouched; the
    file of the rejected request is not in [uploads] afterwards. *)
Theorem upload_without_text_is_cleaned_up (ev : Env) (f : File)
    (req_title req_description : option string) (w : World) :
  file_path f = "uploads/" ++ file_filename f ->
  file_filename f ∈ uploads w ->
  (req_title = None \/ req_title = Some "")
  \/ (req_description = None \/ req_description = Some "") ->
  let r := post_upload ev (Some f) req_title req_description w in
  snd r = error 400 "Title and description are required"
  /\ storyboardData (fst r) = storyboardData w
  /\ data_json (fst r) = data_json w
  /\ uploads (fst r) = uploads w ∖ {[ file_filename f ]}
  /\ file_filename f ∉ uploads (fst r).
Proof.
  intros Hpath Hin Hmiss r. subst r.
  rewrite (post_upload_incomplete ev f req_title req_description w Hpath Hin)
    by (destruct Hmiss as [H|H]; [left|right]; apply truthy_false, H).
  simpl. repeat split; try reflexivity.
  intros Hin'. apply elem_of_difference in Hin' as [_ Hn].
  apply Hn, elem_of_singleton. reflexivity.
Qed.

Lemma upload_without_text_is_cleaned_up_witness :
  snd (post_upload sample_env (Some sample_file) None (Some "d")
         (set_uploads {[ "1700000000000-123456789.png" ]} sample_world))
  = error 400 "Title and description are required".
Proof.
  apply (upload_without_text_is_cleaned_up sample_env sample_file None
           (Some "d")
           (set_uploads {[ "1700000000000-123456789.png" ]} sample_world)).
  - reflexivity.
  - simpl. apply elem_of_singleton. reflexivity.
  - left. left. reflexivity.
Defined.

(** The same through the whole route: an image below the size limit is
    stored by [multer] and removed again by the handler. *)
Lemma upload_route_without_text (ev : Env) (att : Attachment)
    (req_title req_description : option string) (w : World) :
  originalname att <> "" ->
  fileFilter att = true ->
  size att < fileSize_limit ->
  valueTruncated req_title = false -> valueTruncated req_description = false ->
  truthy req_title = false \/ truthy req_description = false ->
  let r := serve (PostUpload ev (Some att) req_title req_description) w in
  snd r = error 400 "Title and description are required"
  /\ storyboardData (fst r) = storyboardData w
  /\ data_json (fst r) = data_json w
  /\ storage_filename ev att ∉ uploads (fst r).
Proof.
  intros Hname Hfilter Hsize Htt Htd Hmiss r. subst r.
  unfold serve, upload_single.
  rewrite Htt, Htd. apply String.eqb_neq in Hname. simpl orb. cbv iota.
  rewrite Hname, Hfilter.
  destruct (Z.ltb_spec (size att) fileSize_limit); [|lia].
  rewrite post_upload_incomplete; simpl; try reflexivity; try assumption;
    [|apply elem_of_union; left; apply elem_of_singleton; reflexivity].
  repeat split; try reflexivity.
  intros Hin'. apply elem_of_difference in Hin' as [_ Hn].
  apply Hn, elem_of_singleton. reflexivity.
Qed.

(** ** The name of the stored file *)

Lemma occurs_append c s1 s2 :
  occurs c (s1 ++ s2) <-> occurs c s1 \/ occurs c s2.
Proof.
  unfold occurs. induction s1 as [|a s1 IH]; simpl; [tauto|].
  rewrite IH. tauto.
Qed.

Lemma occurs_string_of_uint c d :
  occurs c (NilEmpty.string_of_uint d) -> is_digit c = true.
Proof.
  unfold occurs.
  induction d; simpl; intros H; try contradiction;
    (destruct H as [<-|H]; [reflexivity | exact (IHd H)]).
Qed.

Lemma occurs_Number_toString c n :
  occurs c (Number_toString n) -> is_digit c = true \/ c = "-"%char.
Proof.
  unfold Number_toString, NilZero.string_of_int, NilZero.string_of_uint.
  assert (Hu : forall d, occurs c match d with
                                  | Nil => "0"
                                  | _ => NilEmpty.string_of_uint d
                                  end -> is_digit c = true).
  { intros d. destruct d; try apply occurs_string_of_uint.
    unfold occurs. simpl. intros [<-|[]]. reflexivity. }
  destruct (Z.to_int n) as [d|d].
  - intros H. left. exact (Hu d H).
  - unfold occurs. simpl. intros [<-|H]; [right; reflexivity|left].
    exact (Hu d H).
Qed.

(** The characters of a substring are characters of the string, at the
    positions of the substring. *)
Lemma occurs_substring c (s : string) : forall n m : nat,
  occurs c (substring n m s) ->
  exists j : nat, (n <= j < n + m)%nat /\ list_ascii_of_string s !! j = Some c.
Proof.
  unfold occurs. induction s as [|a s IH]; intros n m H.
  - destruct n, m; simpl in H; contradiction.
  - destruct n as [|n].
    + destruct m as [|m]; simpl in H; [contradiction|].
      destruct H as [<-|H].
      * exists 0%nat. split; [lia|reflexivity].
      * destruct (IH 0%nat m H) as (j & Hj & Hl).
        exists (S j). split; [lia|exact Hl].
    + simpl in H. destruct (IH n m H) as (j & Hj & Hl).
      exists (S j). split; [lia|exact Hl].
Qed.

Lemma extname_step_inv (l : list ascii) (i : nat) (code : ascii)
    (st : extname_state) :
  l !! i = Some code ->
  scan_inv l (Z.of_nat i + 1) st ->
  match extname_step (Z.of_nat i) code st with
  | inl st' => scan_inv l (Z.of_nat i + 1) st'
  | inr st' => scan_inv l (Z.of_nat i) st'
  end.
Proof.
  intros Hi Hinv. unfold extname_step.
  destruct (Ascii.eqb_spec code "/") as [->|Hcode].
  - destruct Hinv as [(He & Hs & Hm)|(Hm & He & Hs & Hall)]; rewrite Hm; simpl.
    + left. auto.
    + right. simpl. auto.
  - assert (Hnew : forall (e : Z) (j : nat) (x : ascii),
               (forall (j : nat) (x : ascii), l !! j = Some x ->
                  Z.of_nat i + 1 <= Z.of_nat j < e -> x <> "/"%char) ->
               l !! j = Some x -> Z.of_nat i <= Z.of_nat j < e -> x <> "/"%char).
    { intros e j x Hall Hj Hr.
      destruct (decide (j = i)) as [->|Hne]; [congruence|].
      apply (Hall j x Hj). lia. }
    destruct Hinv as [(He & Hs & Hm)|(Hm & He & Hs & Hall)].
    + rewrite He. simpl.
      assert (Hone : forall (j : nat) (x : ascii), l !! j = Some x ->
                 Z.of_nat i <= Z.of_nat j < Z.of_nat i + 1 -> x <> "/"%char).
      { intros j x Hj Hr. replace j with i in Hj by lia. congruence. }
      destruct (Ascii.eqb code "."); simpl; rewrite Hs; simpl;
        right; simpl; (split; [reflexivity|]); (split; [lia|]);
        (split; [|exact Hone]); first [left; reflexivity | right; lia].
    + destruct (Z.eqb_spec (end_ st) (-1)) as [Heq|Hneq]; [lia|].
      assert (Hall' : forall (j : nat) (x : ascii), l !! j = Some x ->
                 Z.of_nat i <= Z.of_nat j < end_ st -> x <> "/"%char)
        by (intros j x; apply Hnew, Hall).
      destruct (Ascii.eqb code "."); simpl;
        destruct (Z.eqb_spec (startDot st) (-1)) as [Hsd|Hsd]; simpl;
        try destruct (negb (preDotState st =? 1));
        right; simpl;
        (split; [assumption|]); (split; [lia|]); (split; [|exact Hall']);
        first [left; assumption | right; lia].
Qed.

Lemma extname_loop_inv (suf : list ascii) : forall (rp : list ascii)
    (st : extname_state),
  scan_inv (rev rp ++ suf) (Z.of_nat (length rp)) st ->
  exists k, 0 <= k
    /\ scan_inv (rev rp ++ suf) k
         (extname_loop rp (Z.of_nat (length rp) - 1) st).
Proof.
  intros rp. revert suf.
  induction rp as [|code rp IH]; intros suf st Hinv.
  - exists 0. split; [lia|exact Hinv].
  - replace (Z.of_nat (length (code :: rp)) - 1) with (Z.of_nat (length rp))
      by (simpl length; lia).
    simpl extname_loop.
    assert (Hl : (rev (code :: rp) ++ suf)%list = (rev rp ++ code :: suf)%list).
    { simpl. rewrite <- app_assoc. reflexivity. }
    rewrite Hl in *.
    assert (Hi : (rev rp ++ code :: suf)%list !! length rp = Some code).
    { rewrite lookup_app_r by (rewrite List.length_rev; lia).
      rewrite List.length_rev, Nat.sub_diag. reflexivity. }
    replace (Z.of_nat (length (code :: rp))) with (Z.of_nat (length rp) + 1)
      in Hinv by (simpl length; lia).
    pose proof (extname_step_inv _ _ _ _ Hi Hinv) as Hstep.
    destruct (extname_step (Z.of_nat (length rp)) code st) as [st'|st'].
    + exists (Z.of_nat (length rp) + 1). split; [lia|exact Hstep].
    + exact (IH (code :: suf) st' Hstep).
Qed.

(** The extension that [path.extname] returns holds no separator. *)
Lemma extname_no_slash (path : string) : ~ occurs "/" (extname path).
Proof.
  unfold extname.
  set (l := list_ascii_of_string path).
  set (st0 := {| startDot := -1; startPart := 0; end_ := -1;
                 matchedSlash := true; preDotState := 0 |}).
  destruct (extname_loop_inv [] (rev l) st0) as (k & Hk & Hinv).
  { left. auto. }
  rewrite app_nil_r, List.rev_involutive in Hinv.
  replace (Z.of_nat (length (rev l))) with (Z.of_nat (String.length path))
    in Hinv.
  2:{ rewrite List.length_rev. unfold l. f_equal. clear.
      induction path as [|a path IH]; simpl; [reflexivity|].
      f_equal. exact IH. }
  set (st := extname_loop (rev l) (Z.of_nat (String.length path) - 1) st0) in *.
  destruct (Z.eqb_spec (startDot st) (-1)) as [Hsd|Hsd]; simpl;
    [intros []|].
  destruct (Z.eqb_spec (end_ st) (-1)) as [He|He]; simpl; [intros []|].
  destruct ((preDotState st =? 0)
            || (preDotState st =? 1) && (startDot st =? end_ st - 1)
               && (startDot st =? startPart st + 1)); [intros []|].
  destruct Hinv as [(He' & _)|(_ & Hke & Hs & Hall)]; [contradiction|].
  destruct Hs as [Hs|Hs]; [contradiction|].
  intros Hocc. apply occurs_substring in Hocc as (j & Hj & Hlook).
  apply (Hall j "/"%char Hlook); [lia|reflexivity].
Qed.

Lemma storage_filename_no_slash (ev : Env) (f : Attachment) :
  ~ occurs "/" (storage_filename ev f).
Proof.
  unfold storage_filename. intros H.
  apply occurs_append in H as [H|H].
  { apply occurs_Number_toString in H as [H|H]; discriminate H. }
  apply occurs_append in H as [H|H].
  { unfold occurs in H. simpl in H. destruct H as [H|[]]. discriminate H. }
  apply occurs_append in H as [H|H].
  { apply occurs_Number_toString in H as [H|H]; discriminate H. }
  exact (extname_no_slash _ H).
Qed.

(** C7, as the code has it.  The name of the stored file is the clock
    reading, a dash, the random integer and the extension that
    [path.extname] finds in the original file name.  Of the text the user
    supplies only that extension reaches the name: two original names with
    the same extension give the same stored name.  No separator [/] occurs
    in the name, whatever the original name is. *)
Theorem stored_name_depends_on_extension_only (ev : Env) (f1 f2 : Attachment) :
  path.extname (originalname f1) = path.extname (originalname f2) ->
  storage_filename ev f1 = storage_filename ev f2
  /\ storage_filename ev f1
     = Number_toString (now_storage ev) ++ "-" ++ Number_toString (random ev)
         ++ path.extname (originalname f1)
  /\ ~ occurs "/" (storage_filename ev f1).
Proof.
  intros Hext. split; [|split].
  - unfold storage_filename. rewrite Hext. reflexivity.
  - reflexivity.
  - apply storage_filename_no_slash.
Qed.

Lemma stored_name_depends_on_extension_only_witness :
  storage_filename sample_env sample_png
  = storage_filename sample_env sample_traversal.
Proof.
  apply (stored_name_depends_on_extension_only sample_env sample_png
           sample_traversal).
  reflexivity.
Defined.

(** C7, as the claim has it, fails: two uploads that differ in the
    original file name only get different stored names. *)
Lemma stored_name_follows_original_name :
  ~ (forall (ev : Env) (f1 f2 : Attachment),
       mimetype f1 = mimetype f2 -> size f1 = size f2 ->
       storage_filename ev f1 = storage_filename ev f2).
Proof.
  intros H.
  specialize (H sample_env sample_png sample_jpg eq_refl eq_refl).
  vm_compute in H. discriminate H.
Qed.

(** ** Decimal numerals *)

Lemma Number_toString_pos p :
  Number_toString (Z.pos p) = NilEmpty.string_of_uint (Pos.to_uint p).
Proof.
  unfold Number_toString. simpl.
  pose proof (DecimalPos.Unsigned.to_uint_nonnil p) as Hn.
  destruct (Pos.to_uint p); [contradiction|reflexivity..].
Qed.

Lemma Number_toString_neg p :
  Number_toString (Z.neg p)
  = String "-" (NilEmpty.string_of_uint (Pos.to_uint p)).
Proof.
  unfold Number_toString. simpl.
  pose proof (DecimalPos.Unsigned.to_uint_nonnil p) as Hn.
  destruct (Pos.to_uint p); [contradiction|reflexivity..].
Qed.

(** The numeral of a positive number does not start with a zero. *)
Lemma to_uint_no_leading_zero p u : Pos.to_uint p <> D0 u.
Proof.
  intros E.
  pose proof (DecimalPos.Unsigned.to_of (Pos.to_uint p)) as Hn.
  rewrite DecimalPos.Unsigned.of_to in Hn. simpl in Hn.
  rewrite E, unorm_D0 in Hn. unfold unorm in Hn.
  destruct (nzhead u) eqn:Eu; try discriminate Hn.
  - rewrite Hn in E. exact (DecimalPos.Unsigned.to_uint_nonzero p E).
  - exact (nzhead_nonzero u _ Eu).
Qed.

Lemma to_uint_head p :
  exists c r, NilEmpty.string_of_uint (Pos.to_uint p) = String c r
              /\ is_digit c = true /\ c <> "0"%char.
Proof.
  pose proof (DecimalPos.Unsigned.to_uint_nonnil p) as Hn.
  pose proof (to_uint_no_leading_zero p) as Hz.
  destruct (Pos.to_uint p) as [|u|u|u|u|u|u|u|u|u|u]; simpl;
    [contradiction | exfalso; exact (Hz u eq_refl) | ..];
    eexists _, _; (split; [reflexivity|]); split;
    first [reflexivity | discriminate].
Qed.

Lemma uint_value_of_lu d : forall acc,
  uint_value (Z.of_N (DecimalPos.Unsigned.of_lu acc)) d
  = Z.of_N (DecimalPos.Unsigned.of_lu (revapp d acc)).
Proof.
  induction d; intros acc; simpl revapp; simpl uint_value;
    [reflexivity|..];
    rewrite <- IHd; f_equal; simpl DecimalPos.Unsigned.of_lu; lia.
Qed.

Lemma uint_value_of_uint d : uint_value 0 d = Z.of_uint d.
Proof.
  unfold Z.of_uint. rewrite DecimalPos.Unsigned.of_uint_alt.
  exact (uint_value_of_lu d Nil).
Qed.

Lemma to_uint_value p : uint_value 0 (Pos.to_uint p) = Z.pos p.
Proof.
  rewrite uint_value_of_uint. unfold Z.of_uint.
  rewrite DecimalPos.Unsigned.of_to. reflexivity.
Qed.

(** ** The id parameter of the routes *)

Lemma digit_value_not_digit c : is_digit c = false -> digit_value 10 c = None.
Proof.
  unfold is_digit, digit_value. intros H.
  set (n := N_of_ascii c) in *.
  destruct (Z.leb_spec 48 (Z.of_N n)), (Z.leb_spec (Z.of_N n) 57); simpl;
    try (exfalso; revert H;
         destruct (N.leb_spec 48 n), (N.leb_spec n 57); simpl;
         intros; try discriminate; lia);
    (destruct (Z.leb_spec 97 (Z.of_N n)), (Z.leb_spec (Z.of_N n) 122); simpl;
     [destruct (Z.ltb_spec (Z.of_N n - 87) 10); [lia|reflexivity] | ..]);
    (destruct (Z.leb_spec 65 (Z.of_N n)), (Z.leb_spec (Z.of_N n) 90); simpl;
     [destruct (Z.ltb_spec (Z.of_N n - 55) 10); [lia|reflexivity] | ..]);
    reflexivity.
Qed.

Lemma radix_prefix_stop acc s :
  starts_with_digit s = false -> radix_prefix 10 acc s = acc.
Proof.
  destruct s as [|c r]; simpl; [reflexivity|].
  intros H. rewrite (digit_value_not_digit c H). reflexivity.
Qed.

Lemma radix_prefix_numeral d : forall acc rest,
  starts_with_digit rest = false ->
  radix_prefix 10 (Some acc) (NilEmpty.string_of_uint d ++ rest)
  = Some (uint_value acc d).
Proof.
  induction d; intros acc rest Hrest; simpl NilEmpty.string_of_uint;
    [apply radix_prefix_stop, Hrest|..];
    simpl uint_value; rewrite <- (IHd _ rest Hrest); reflexivity.
Qed.

Lemma radix_prefix_numeral_start d rest :
  d <> Nil -> starts_with_digit rest = false ->
  radix_prefix 10 None (NilEmpty.string_of_uint d ++ rest)
  = Some (uint_value 0 d).
Proof.
  intros Hd Hrest.
  destruct d; [contradiction|..]; simpl NilEmpty.string_of_uint;
    simpl uint_value; rewrite <- (radix_prefix_numeral _ _ rest Hrest);
    reflexivity.
Qed.

Lemma TrimStart_ascii c r :
  (N_of_ascii c < 128)%N -> is_ws1 c = false ->
  TrimStart (String c r) = String c r.
Proof.
  intros Hc Hw. simpl. rewrite Hw.
  assert (H2 : forall c2, is_ws2 c c2 = false).
  { intros c2. unfold is_ws2.
    destruct (N.eqb_spec (N_of_ascii c) 194); [lia|reflexivity]. }
  assert (H3 : forall c2 c3, is_ws3 c c2 c3 = false).
  { intros c2 c3. unfold is_ws3.
    destruct (N.eqb_spec (N_of_ascii c) 225); [lia|].
    destruct (N.eqb_spec (N_of_ascii c) 226); [lia|].
    destruct (N.eqb_spec (N_of_ascii c) 227); [lia|].
    destruct (N.eqb_spec (N_of_ascii c) 239); [lia|]. reflexivity. }
  destruct r as [|c2 [|c3 r]]; [reflexivity|rewrite H2; reflexivity|].
  rewrite H2, H3. reflexivity.
Qed.

Lemma TrimStart_digit c r :
  is_digit c = true -> TrimStart (String c r) = String c r.
Proof.
  intros H. unfold is_digit in H.
  destruct (N.leb_spec 48 (N_of_ascii c)), (N.leb_spec (N_of_ascii c) 57);
    try discriminate H.
  apply TrimStart_ascii; [lia|]. unfold is_ws1.
  destruct (N.leb_spec 9 (N_of_ascii c)), (N.leb_spec (N_of_ascii c) 13),
    (N.eqb_spec (N_of_ascii c) 32); simpl; try reflexivity; lia.
Qed.

Lemma append_cons a (s t : string) : String a s ++ t = String a (s ++ t).
Proof. reflexivity. Qed.

Lemma append_assoc (s1 s2 s3 : string) : (s1 ++ s2) ++ s3 = s1 ++ s2 ++ s3.
Proof.
  induction s1 as [|a s1 IH]; [reflexivity|].
  rewrite !append_cons, IH. reflexivity.
Qed.

Lemma append_nil_r (s : string) : s ++ "" = s.
Proof.
  induction s as [|a s IH]; [reflexivity|]. rewrite append_cons, IH. reflexivity.
Qed.

(** The integers up to 2^53 are doubles. *)
Lemma round_to_double_small n : Z.abs n <= 2 ^ 53 -> round_to_double n = n.
Proof.
  intros Hn. unfold round_to_double.
  destruct (Z.ltb_spec (Z.log2 (Z.abs n)) 53) as [_|Hlog]; [reflexivity|].
  assert (Hpos : 0 < Z.abs n).
  { destruct (Z.le_gt_cases (Z.abs n) 0) as [Hle|Hgt]; [|lia].
    rewrite Z.log2_nonpos in Hlog by exact Hle. lia. }
  assert (Ha : Z.abs n = 2 ^ 53).
  { pose proof (Z.log2_lt_pow2 (Z.abs n) 53 Hpos) as [H _]. lia. }
  assert (Hcases : n = 2 ^ 53 \/ n = - 2 ^ 53) by lia.
  destruct Hcases as [-> | ->]; vm_compute; reflexivity.
Qed.

Lemma to_Number_small n : Z.abs n <= 2 ^ 53 -> to_Number n = Some n.
Proof.
  intros Hn. unfold to_Number. rewrite (round_to_double_small n Hn).
  destruct (Z.ltb_spec (Z.log2 (Z.abs n)) 1024) as [_|Hlog]; [reflexivity|].
  pose proof (Z.log2_le_mono (Z.abs n) (2 ^ 53) Hn) as Hmono.
  rewrite Z.log2_pow2 in Hmono by lia. lia.
Qed.

(** Leading white space is dropped. *)
Lemma TrimStart_WhiteSpace (n : nat) : forall ws s,
  (String.length ws <= n)%nat -> WhiteSpace ws = true ->
  TrimStart (ws ++ s) = TrimStart s.
Proof.
  induction n as [|n IH]; intros ws s Hlen Hws.
  - destruct ws; [reflexivity|simpl in Hlen; lia].
  - destruct ws as [|c1 r1]; [reflexivity|].
    rewrite append_cons. simpl in Hws. simpl String.length in Hlen.
    simpl TrimStart. destruct (is_ws1 c1).
    { apply IH; [lia|exact Hws]. }
    destruct r1 as [|c2 r2]; [discriminate Hws|].
    rewrite append_cons. simpl String.length in Hlen.
    destruct (is_ws2 c1 c2).
    { apply IH; [lia|exact Hws]. }
    destruct r2 as [|c3 r3]; [discriminate Hws|].
    rewrite append_cons. simpl String.length in Hlen.
    apply andb_prop in Hws as [H3 Hws]. rewrite H3.
    apply IH; [lia|exact Hws].
Qed.

Lemma parseInt_WhiteSpace ws s :
  WhiteSpace ws = true -> parseInt (ws ++ s) = parseInt s.
Proof.
  intros Hws. unfold parseInt.
  rewrite (TrimStart_WhiteSpace (String.length ws)) by (lia || exact Hws).
  reflexivity.
Qed.

(** On a text that starts with a digit other than zero, [parseInt] reads
    radix-10 digits from the start. *)
Lemma parseInt_digit_head c s :
  is_digit c = true -> c <> "0"%char ->
  parseInt (String c s)
  = match radix_prefix 10 None (String c s) with
    | None => None
    | Some mathInt => to_Number (1 * mathInt)
    end.
Proof.
  intros Hc Hz. unfold parseInt. rewrite (TrimStart_digit c s Hc).
  ascii_cases c;
    first [discriminate Hc | congruence | reflexivity].
Qed.

(** The same after a sign. *)
Lemma parseInt_sign_digit_head (sgn c : ascii) s :
  sgn = "+"%char \/ sgn = "-"%char ->
  is_digit c = true -> c <> "0"%char ->
  parseInt (String sgn (String c s))
  = match radix_prefix 10 None (String c s) with
    | None => None
    | Some mathInt =>
        to_Number ((if Ascii.eqb sgn "-" then -1 else 1) * mathInt)
    end.
Proof.
  intros Hsgn Hc Hz. unfold parseInt.
  rewrite TrimStart_ascii
    by (destruct Hsgn as [-> | ->]; vm_compute; reflexivity).
  destruct Hsgn as [-> | ->]; ascii_cases c;
    first [discriminate Hc | congruence | reflexivity].
Qed.

(** [parseInt] reads back the decimal spelling of a positive number,
    whatever follows it that is not a digit. *)
Lemma parseInt_pos p rest :
  starts_with_digit rest = false ->
  parseInt (NilEmpty.string_of_uint (Pos.to_uint p) ++ rest)
  = to_Number (Z.pos p).
Proof.
  intros Hrest.
  destruct (to_uint_head p) as (c & r & Hs & Hc & Hz).
  assert (Hhead : NilEmpty.string_of_uint (Pos.to_uint p) ++ rest
                  = String c (r ++ rest)) by (rewrite Hs; reflexivity).
  rewrite Hhead, (parseInt_digit_head c _ Hc Hz), <- Hhead.
  rewrite radix_prefix_numeral_start
    by (apply DecimalPos.Unsigned.to_uint_nonnil || exact Hrest).
  rewrite to_uint_value. reflexivity.
Qed.

Lemma parseInt_sign_pos (sgn : ascii) p rest :
  sgn = "+"%char \/ sgn = "-"%char ->
  starts_with_digit rest = false ->
  parseInt (String sgn (NilEmpty.string_of_uint (Pos.to_uint p) ++ rest))
  = to_Number (if Ascii.eqb sgn "-" then Z.neg p else Z.pos p).
Proof.
  intros Hsgn Hrest.
  destruct (to_uint_head p) as (c & r & Hs & Hc & Hz).
  assert (Hhead : NilEmpty.string_of_uint (Pos.to_uint p) ++ rest
                  = String c (r ++ rest)) by (rewrite Hs; reflexivity).
  rewrite Hhead, (parseInt_sign_digit_head sgn c _ Hsgn Hc Hz), <- Hhead.
  rewrite radix_prefix_numeral_start
    by (apply DecimalPos.Unsigned.to_uint_nonnil || exact Hrest).
  rewrite to_uint_value.
  destruct Hsgn as [-> | ->]; reflexivity.
Qed.

Lemma parseInt_neg p rest :
  starts_with_digit rest = false ->
  parseInt (String "-" (NilEmpty.string_of_uint (Pos.to_uint p) ++ rest))
  = to_Number (Z.neg p).
Proof.
  intros Hrest. apply (parseInt_sign_pos "-" p rest); [right; reflexivity|].
  exact Hrest.
Qed.

Lemma parseInt_zero rest :
  starts_with_digit rest = false ->
  (forall r, rest <> String "x" r) -> (forall r, rest <> String "X" r) ->
  parseInt (String "0" rest) = Some 0.
Proof.
  intros Hrest Hx HX. unfold parseInt.
  rewrite TrimStart_digit by reflexivity.
  destruct rest as [|c r]; [reflexivity|].
  ascii_cases c;
    first [discriminate Hrest
          | exfalso; exact (Hx r eq_refl)
          | exfalso; exact (HX r eq_refl)
          | reflexivity].
Qed.

Lemma parseInt_sign_zero (sgn : ascii) rest :
  sgn = "+"%char \/ sgn = "-"%char ->
  starts_with_digit rest = false ->
  (forall r, rest <> String "x" r) -> (forall r, rest <> String "X" r) ->
  parseInt (String sgn (String "0" rest)) = Some 0.
Proof.
  intros Hsgn Hrest Hx HX. unfold parseInt.
  rewrite TrimStart_ascii
    by (destruct Hsgn as [-> | ->]; vm_compute; reflexivity).
  destruct rest as [|c r]; [destruct Hsgn as [-> | ->]; reflexivity|].
  destruct Hsgn as [-> | ->]; ascii_cases c;
    first [discriminate Hrest
          | exfalso; exact (Hx r eq_refl)
          | exfalso; exact (HX r eq_refl)
          | reflexivity].
Qed.

(** [parseInt] reads the decimal spelling of a number as the double
    nearest to it, whatever follows the numeral that is not a digit (and,
    after a lone zero, not the [x] of a hexadecimal prefix). *)
Lemma parseInt_Number_toString n rest :
  starts_with_digit rest = false ->
  (n = 0 -> forall r, rest <> String "x" r /\ rest <> String "X" r) ->
  parseInt (Number_toString n ++ rest) = to_Number n.
Proof.
  intros Hrest Hhex. destruct n as [|p|p].
  - apply parseInt_zero; [exact Hrest|intros r; apply Hhex..]; reflexivity.
  - rewrite Number_toString_pos. apply parseInt_pos, Hrest.
  - rewrite Number_toString_neg. apply parseInt_neg, Hrest.
Qed.

(** The same after a plus sign, which is dropped. *)
Lemma parseInt_plus_Number_toString n rest :
  0 <= n ->
  starts_with_digit rest = false ->
  (n = 0 -> forall r, rest <> String "x" r /\ rest <> String "X" r) ->
  parseInt (String "+" (Number_toString n ++ rest)) = to_Number n.
Proof.
  intros Hn Hrest Hhex. destruct n as [|p|p]; [| |lia].
  - apply (parseInt_sign_zero "+"); [left; reflexivity|exact Hrest|..];
      intros r; apply Hhex; reflexivity.
  - rewrite Number_toString_pos.
    apply (parseInt_sign_pos "+" p rest); [left; reflexivity|exact Hrest].
Qed.

(** Up to 2^53 the number is the one that the digits spell. *)
Lemma parseInt_of_id (n : Z) :
  Z.abs n <= 2 ^ 53 -> parseInt (Number_toString n) = Some n.
Proof.
  intros Hn. rewrite <- (append_nil_r (Number_toString n)).
  rewrite parseInt_Number_toString; [apply to_Number_small, Hn|reflexivity|].
  intros _ r. split; discriminate.
Qed.

(** Without a digit after the white space and the sign there is no
    number. *)
Lemma parseInt_no_digit param c r :
  TrimStart param = String c r ->
  c <> "+"%char -> c <> "-"%char -> is_digit c = false ->
  parseInt param = None.
Proof.
  intros Htrim Hp Hm Hd. unfold parseInt. rewrite Htrim.
  ascii_cases c;
    first [discriminate Hd | congruence | reflexivity].
Qed.

(** Nor is there one when the sign is followed by something else than a
    digit. *)
Lemma parseInt_sign_no_digit param c r :
  TrimStart param = String c r ->
  c = "+"%char \/ c = "-"%char -> starts_with_digit r = false ->
  parseInt param = None.
Proof.
  intros Htrim Hc Hr. unfold parseInt. rewrite Htrim.
  destruct r as [|c' r']; [destruct Hc as [-> | ->]; reflexivity|].
  simpl in Hr.
  destruct Hc as [-> | ->]; ascii_cases c';
    first [discriminate Hr | reflexivity].
Qed.

Lemma parseInt_empty param : TrimStart param = "" -> parseInt param = None.
Proof. intros Htrim. unfold parseInt. rewrite Htrim. reflexivity. Qed.

(** [NaN] is the id of no entry. *)
Lemma list_find_NaN (imgs : list ImageEntry) :
  list_find (has_id None) imgs = None.
Proof. apply list_find_absent. intros img _ H. discriminate H. Qed.

(** C10, as the code has it.  Both routes look for the entry whose id is
    [parseInt] of the parameter, and answer 404 without a change when it
    is no number.  [parseInt] drops leading white space, then reads an
    optional sign and the digits.  It gives [NaN] when no digit follows
    the white space and the sign.  The decimal spelling of a number, after
    white space and a sign or none and before any text that does not start
    with a digit (nor, after a lone zero, with the [x] of a hexadecimal
    numeral), is read as the double nearest to that number, which is the
    number itself up to 2^53; the route then acts on the entry with that
    id. *)
Theorem id_parameter_is_parsed (param : string) (w : World) :
  post_favorite param w = toggleFavorite (parseInt param) w
  /\ delete_image param w = deleteImage (parseInt param) w
  /\ (parseInt param = None ->
      post_favorite param w = (w, error 404 "Image not found")
      /\ delete_image param w = (w, error 404 "Image not found"))
  /\ (forall ws rest, WhiteSpace ws = true -> param = ws ++ rest ->
        parseInt param = parseInt rest)
  /\ (TrimStart param = "" -> parseInt param = None)
  /\ (forall c r, TrimStart param = String c r ->
        c <> "+"%char -> c <> "-"%char -> is_digit c = false ->
        parseInt param = None)
  /\ (forall c r, TrimStart param = String c r ->
        c = "+"%char \/ c = "-"%char -> starts_with_digit r = false ->
        parseInt param = None)
  /\ (forall ws n rest, WhiteSpace ws = true -> 0 <= n ->
        starts_with_digit rest = false ->
        (n = 0 -> forall r, rest <> String "x" r /\ rest <> String "X" r) ->
        (param = ws ++ Number_toString n ++ rest
         \/ param = ws ++ String "+" (Number_toString n ++ rest) ->
         parseInt param = to_Number n)
        /\ (param = ws ++ String "-" (Number_toString n ++ rest) ->
            parseInt param = to_Number (- n)))
  /\ (forall n, Z.abs n <= 2 ^ 53 -> to_Number n = Some n)
  /\ to_Number (2 ^ 53 + 1) = Some (2 ^ 53)
  /\ (forall n, parseInt param = Some n ->
        (exists img, img ∈ images (storyboardData w) /\ id img = n) ->
        status (snd (post_favorite param w)) = 200
        /\ status (snd (delete_image param w)) = 200).
Proof.
  split; [reflexivity|]. split; [reflexivity|].
  split; [|split; [|split; [|split; [|split; [|split; [|split; [|split]]]]]]].
  - intros Hnan. unfold post_favorite, delete_image, toggleFavorite, deleteImage.
    rewrite Hnan, list_find_NaN. split; reflexivity.
  - intros ws rest Hws ->. apply parseInt_WhiteSpace, Hws.
  - apply parseInt_empty.
  - intros c r. apply parseInt_no_digit.
  - intros c r. apply parseInt_sign_no_digit.
  - intros ws n rest Hws Hn Hrest Hhex. split.
    + intros [-> | ->]; rewrite (parseInt_WhiteSpace ws _ Hws).
      * apply parseInt_Number_toString; assumption.
      * apply parseInt_plus_Number_toString; assumption.
    + intros ->. rewrite (parseInt_WhiteSpace ws _ Hws).
      destruct n as [|p|p]; [| |lia].
      * apply (parseInt_sign_zero "-"); [right; reflexivity|exact Hrest|..];
          intros r; apply Hhex; reflexivity.
      * rewrite Number_toString_pos. apply parseInt_neg, Hrest.
  - apply to_Number_small.
  - vm_compute. reflexivity.
  - intros n Hparse (img & Hin & Hid).
    destruct (list_find_present (Some n) (images (storyboardData w)))
      as (i & image & Hfind).
    { exists img. split; [exact Hin|]. unfold has_id. congruence. }
    unfold post_favorite, delete_image, toggleFavorite, deleteImage.
    rewrite Hparse, Hfind. split; reflexivity.
Qed.

Lemma id_parameter_is_parsed_witness :
  post_favorite "abc" sample_world
  = (sample_world, error 404 "Image not found")
  /\ parseInt " +5abc" = Some 5
  /\ parseInt "9007199254740993" = Some 9007199254740992
  /\ status (snd (delete_image " +5abc" sample_world)) = 200.
Proof.
  destruct (id_parameter_is_parsed "abc" sample_world)
    as (_ & _ & Hnan & _).
  destruct (id_parameter_is_parsed " +5abc" sample_world)
    as (_ & _ & _ & _ & _ & _ & _ & Hsigned & _ & _ & Hacts).
  destruct (id_parameter_is_parsed "9007199254740993" sample_world)
    as (_ & _ & _ & _ & _ & _ & _ & Hbig & _).
  destruct (Hsigned " " 5 "abc" eq_refl ltac:(lia) eq_refl ltac:(discriminate))
    as [Hplus _].
  destruct (Hbig "" 9007199254740993 "" eq_refl ltac:(lia) eq_refl
              ltac:(discriminate)) as [Hplain _].
  split; [apply Hnan; reflexivity|].
  split; [exact (Hplus (or_intror eq_refl))|].
  split; [exact (Hplain (or_introl eq_refl))|].
  apply (Hacts 5 (Hplus (or_intror eq_refl))).
  exists (sample_entry 5 false). split; [|reflexivity].
  apply list_elem_of_In. simpl. tauto.
Defined.

(** C10, as the claim has it, fails: a parameter that starts with a sign
    has no leading digit and is still read as a number, and after a
    leading [0x] the digits are read in radix 16. *)
Lemma signed_and_hex_parameters_are_numbers :
  ~ (forall (param : string) (w : World),
       starts_with_digit param = false ->
       post_favorite param w = (w, error 404 "Image not found"))
  /\ parseInt "+5" = Some 5
  /\ snd (post_favorite "+5" sample_world) = ok (FavoriteJson true)
  /\ parseInt "0x10" = Some 16
  /\ images (storyboardData (fst (delete_image "0x10" sample_world)))
     = [sample_entry 7 true; sample_entry 5 false].
Proof.
  split; [|repeat split].
  intros H. specialize (H "+5" sample_world eq_refl).
  apply (f_equal snd) in H. vm_compute in H. discriminate H.
Qed.

(** ** The document is read back as it was written *)


(** *** Strings *)

Lemma parse_quote_char c (t : string) :
  parse_string_chars (quote_char c ++ t)
  = parse_bind (parse_string_chars t) (fun u rest => Parsed (String c u) rest).
Proof.
  ascii_cases c; reflexivity.
Qed.

Lemma parse_quote_chars (s rest : string) :
  parse_string_chars (quote_chars s ++ String DQUOTE rest) = Parsed s rest.
Proof.
  induction s as [|c s IH]; [reflexivity|].
  simpl quote_chars. rewrite append_assoc, parse_quote_char, IH. reflexivity.
Qed.

(** *** Numbers *)

Lemma parse_digits_stop (s : string) :
  starts_with_digit s = false -> parse_digits s = (Nil, s).
Proof.
  destruct s as [|c r]; simpl; [reflexivity|]. intros ->. reflexivity.
Qed.

Lemma parse_digits_numeral d : forall rest,
  starts_with_digit rest = false ->
  parse_digits (NilEmpty.string_of_uint d ++ rest) = (d, rest).
Proof.
  induction d; intros rest Hrest; simpl NilEmpty.string_of_uint;
    [apply parse_digits_stop, Hrest|..];
    rewrite append_cons; simpl parse_digits; rewrite (IHd rest Hrest);
    reflexivity.
Qed.

Lemma value_end_not_digit s : value_end s = true -> starts_with_digit s = false.
Proof.
  destruct s as [|c r]; [reflexivity|]. simpl.
  destruct (Ascii.eqb_spec c ",") as [->|_]; [reflexivity|].
  destruct (Ascii.eqb_spec c LF) as [->|_]; [reflexivity|discriminate].
Qed.

Lemma parse_number_tail_end n s :
  value_end s = true -> parse_number_tail n s = Parsed (JNum n) s.
Proof.
  destruct s as [|c r]; [reflexivity|]. simpl.
  destruct (Ascii.eqb_spec c ",") as [->|_]; [reflexivity|].
  destruct (Ascii.eqb_spec c LF) as [->|_]; [reflexivity|discriminate].
Qed.

Lemma parse_unsigned_pos sign p rest :
  value_end rest = true ->
  parse_unsigned sign (NilEmpty.string_of_uint (Pos.to_uint p) ++ rest)
  = Parsed (JNum (sign * Z.pos p)) rest.
Proof.
  intros Hrest.
  destruct (to_uint_head p) as (c & r & Hs & Hc & Hz).
  assert (Hhead : NilEmpty.string_of_uint (Pos.to_uint p) ++ rest
                  = String c (r ++ rest)) by (rewrite Hs; reflexivity).
  rewrite Hhead. unfold parse_unsigned.
  destruct (Ascii.eqb_spec c "0") as [->|_]; [congruence|].
  rewrite Hc, <- Hhead.
  rewrite parse_digits_numeral by (apply value_end_not_digit, Hrest).
  unfold Z.of_uint. rewrite DecimalPos.Unsigned.of_to.
  apply parse_number_tail_end, Hrest.
Qed.

Lemma parse_number_toString n rest :
  value_end rest = true ->
  parse_number (Number_toString n ++ rest) = Parsed (JNum n) rest.
Proof.
  intros Hrest. destruct n as [|p|p].
  - change (Number_toString 0 ++ rest) with (String "0" rest).
    unfold parse_number, parse_unsigned. simpl.
    apply parse_number_tail_end, Hrest.
  - rewrite Number_toString_pos.
    destruct (to_uint_head p) as (c & r & Hs & Hc & Hz).
    unfold parse_number.
    assert (Hhead : NilEmpty.string_of_uint (Pos.to_uint p) ++ rest
                    = String c (r ++ rest)) by (rewrite Hs; reflexivity).
    rewrite Hhead.
    destruct (Ascii.eqb_spec c "-") as [->|_]; [discriminate Hc|].
    rewrite <- Hhead. rewrite parse_unsigned_pos by exact Hrest.
    reflexivity.
  - rewrite Number_toString_neg, append_cons. unfold parse_number.
    simpl Ascii.eqb. cbv iota.
    rewrite parse_unsigned_pos by exact Hrest. reflexivity.
Qed.

(** *** White space *)

Lemma all_ws_append s1 s2 :
  all_ws s1 = true -> all_ws s2 = true -> all_ws (s1 ++ s2) = true.
Proof.
  induction s1 as [|c s1 IH]; intros H1 H2; [exact H2|].
  rewrite append_cons. simpl in *.
  apply andb_true_iff in H1 as [-> H1]. exact (IH H1 H2).
Qed.

Lemma skip_ws_stop c r : is_json_ws c = false -> skip_ws (String c r) = String c r.
Proof. intros H. simpl. rewrite H. reflexivity. Qed.

Lemma skip_ws_append ws s : all_ws ws = true -> skip_ws (ws ++ s) = skip_ws s.
Proof.
  induction ws as [|c ws IH]; intros H; [reflexivity|].
  rewrite append_cons. simpl in *.
  apply andb_true_iff in H as [-> H]. exact (IH H).
Qed.

(** *** The first character of a serialized value *)

Lemma Number_toString_head n :
  exists c r, Number_toString n = String c r
              /\ (is_digit c = true \/ c = "-"%char).
Proof.
  destruct n as [|p|p].
  - exists "0"%char, "". split; [reflexivity|left; reflexivity].
  - rewrite Number_toString_pos.
    destruct (to_uint_head p) as (c & r & Hs & Hc & _).
    exists c, r. split; [exact Hs|left; exact Hc].
  - rewrite Number_toString_neg. eexists _, _. split; [reflexivity|].
    right; reflexivity.
Qed.

Lemma Serialize_head indent v :
  exists c r, SerializeJSONProperty indent v = String c r
              /\ value_start c = true.
Proof.
  destruct v as [|[]|n|s|[|x l]|[|x l]];
    try (eexists _, _; split; reflexivity).
  simpl. destruct (Number_toString_head n) as (c & r & Hs & Hc).
  exists c, r. split; [exact Hs|]. destruct Hc as [Hc| ->]; [|reflexivity].
  unfold value_start. rewrite Hc. reflexivity.
Qed.

Lemma value_start_not_ws c : value_start c = true -> is_json_ws c = false.
Proof. ascii_cases c; intros H; first [reflexivity | discriminate H]. Qed.

Lemma value_start_not_close c :
  value_start c = true -> Ascii.eqb c "]" = false /\ Ascii.eqb c "}" = false.
Proof.
  ascii_cases c; intros H;
    first [split; reflexivity | discriminate H].
Qed.

Lemma parse_value_S fuel s :
  parse_value (S fuel) s
  = match skip_ws s with
    | EmptyString => SyntaxError
    | String c r as s' =>
        if Ascii.eqb c "n" then expect "null" JNull s'
        else if Ascii.eqb c "t" then expect "true" (JBool true) s'
        else if Ascii.eqb c "f" then expect "false" (JBool false) s'
        else if Ascii.eqb c DQUOTE then
          parse_bind (parse_string_chars r) (fun t rest => Parsed (JStr t) rest)
        else if Ascii.eqb c "[" then
          match skip_ws r with
          | EmptyString => SyntaxError
          | String c' rest as r' =>
              if Ascii.eqb c' "]" then Parsed (JArr []) rest
              else parse_bind (parse_elements fuel r')
                     (fun l rest' => Parsed (JArr l) rest')
          end
        else if Ascii.eqb c "{" then
          match skip_ws r with
          | EmptyString => SyntaxError
          | String c' rest as r' =>
              if Ascii.eqb c' "}" then Parsed (JObj []) rest
              else parse_bind (parse_members fuel r')
                     (fun l rest' => Parsed (JObj l) rest')
          end
        else parse_number s'
    end.
Proof. reflexivity. Qed.

Lemma parse_elements_S fuel s :
  parse_elements (S fuel) s
  = parse_bind (parse_value fuel s) (fun v rest =>
      match skip_ws rest with
      | String c rest' =>
          if Ascii.eqb c "," then
            parse_bind (parse_elements fuel rest')
              (fun l rest'' => Parsed (v :: l) rest'')
          else if Ascii.eqb c "]" then Parsed [v] rest'
          else SyntaxError
      | EmptyString => SyntaxError
      end).
Proof. reflexivity. Qed.

Lemma parse_members_S fuel s :
  parse_members (S fuel) s
  = match skip_ws s with
    | String c r =>
        if Ascii.eqb c DQUOTE then
          parse_bind (parse_string_chars r) (fun k rest =>
            match skip_ws rest with
            | String c1 rest1 =>
                if Ascii.eqb c1 ":" then
                  parse_bind (parse_value fuel rest1) (fun v rest2 =>
                    match skip_ws rest2 with
                    | String c2 rest3 =>
                        if Ascii.eqb c2 "," then
                          parse_bind (parse_members fuel rest3)
                            (fun l rest4 => Parsed ((k, v) :: l) rest4)
                        else if Ascii.eqb c2 "}" then Parsed [(k, v)] rest3
                        else SyntaxError
                    | EmptyString => SyntaxError
                    end)
                else SyntaxError
            | EmptyString => SyntaxError
            end)
        else SyntaxError
    | EmptyString => SyntaxError
    end.
Proof. reflexivity. Qed.

(** Leading white space is skipped. *)
Lemma parse_value_ws fuel ws s :
  all_ws ws = true -> parse_value fuel (ws ++ s) = parse_value fuel s.
Proof.
  intros H. destruct fuel as [|fuel]; [reflexivity|].
  rewrite !parse_value_S, skip_ws_append by exact H. reflexivity.
Qed.

Lemma parse_elements_ws fuel ws s :
  all_ws ws = true -> parse_elements fuel (ws ++ s) = parse_elements fuel s.
Proof.
  intros H. destruct fuel as [|fuel]; [reflexivity|].
  rewrite !parse_elements_S, parse_value_ws by exact H. reflexivity.
Qed.

Lemma parse_members_ws fuel ws s :
  all_ws ws = true -> parse_members fuel (ws ++ s) = parse_members fuel s.
Proof.
  intros H. destruct fuel as [|fuel]; [reflexivity|].
  rewrite !parse_members_S, skip_ws_append by exact H. reflexivity.
Qed.

(** *** The shape of the serialized text *)

Lemma QuoteJSONString_append s rest :
  QuoteJSONString s ++ rest = String DQUOTE (quote_chars s ++ String DQUOTE rest).
Proof.
  unfold QuoteJSONString. rewrite append_cons, append_assoc. reflexivity.
Qed.

Lemma join_cons sep p ps :
  join sep (p :: ps)
  = p ++ match ps with [] => "" | _ :: _ => sep ++ join sep ps end.
Proof. destruct ps; [symmetry; apply append_nil_r|reflexivity]. Qed.

Lemma join_one sep p : join sep [p] = p.
Proof. reflexivity. Qed.

Lemma join_two sep p q ps :
  join sep (p :: q :: ps) = p ++ sep ++ join sep (q :: ps).
Proof. reflexivity. Qed.

Lemma Serialize_array indent x l :
  SerializeJSONProperty indent (JArr (x :: l))
  = String "[" (newline ++ (indent ++ gap)
      ++ join ("," ++ newline ++ indent ++ gap)
           (map (SerializeJSONProperty (indent ++ gap)) (x :: l))
      ++ newline ++ indent ++ "]").
Proof. reflexivity. Qed.

Lemma Serialize_object indent x l :
  SerializeJSONProperty indent (JObj (x :: l))
  = String "{" (newline ++ (indent ++ gap)
      ++ join ("," ++ newline ++ indent ++ gap)
           (map (fun kv => QuoteJSONString (fst kv) ++ ": "
                   ++ SerializeJSONProperty (indent ++ gap) (snd kv)) (x :: l))
      ++ newline ++ indent ++ "}").
Proof. reflexivity. Qed.

Lemma parse_value_array fuel r :
  parse_value (S fuel) (String "[" r)
  = match skip_ws r with
    | EmptyString => SyntaxError
    | String c' rest as r' =>
        if Ascii.eqb c' "]" then Parsed (JArr []) rest
        else parse_bind (parse_elements fuel r')
               (fun l rest' => Parsed (JArr l) rest')
    end.
Proof. reflexivity. Qed.

Lemma parse_value_object fuel r :
  parse_value (S fuel) (String "{" r)
  = match skip_ws r with
    | EmptyString => SyntaxError
    | String c' rest as r' =>
        if Ascii.eqb c' "}" then Parsed (JObj []) rest
        else parse_bind (parse_members fuel r')
               (fun l rest' => Parsed (JObj l) rest')
    end.
Proof. reflexivity. Qed.

Lemma parse_value_string fuel r :
  parse_value (S fuel) (String DQUOTE r)
  = parse_bind (parse_string_chars r) (fun t rest => Parsed (JStr t) rest).
Proof. reflexivity. Qed.

Lemma parse_value_number fuel c r :
  is_digit c = true \/ c = "-"%char ->
  parse_value (S fuel) (String c r) = parse_number (String c r).
Proof.
  intros H. rewrite parse_value_S.
  ascii_cases c;
    first [reflexivity | destruct H as [H|H]; discriminate H].
Qed.

Lemma json_size_pos v : (1 <= json_size v)%nat.
Proof. destruct v; simpl; lia. Qed.

Lemma all_ws_gap indent : all_ws indent = true -> all_ws (indent ++ gap) = true.
Proof. intros H. apply all_ws_append; [exact H|reflexivity]. Qed.

Lemma all_ws_newline indent :
  all_ws indent = true -> all_ws (newline ++ indent) = true.
Proof. intros H. apply all_ws_append; [reflexivity|exact H]. Qed.

(** Every serialized value is read back, with enough fuel, whatever
    follows it in the text. *)
Lemma parse_serialized (n : nat) :
  (forall v indent rest,
     all_ws indent = true -> (json_size v <= n)%nat -> value_end rest = true ->
     parse_value n (SerializeJSONProperty indent v ++ rest) = Parsed v rest)
  /\ (forall l indent stepback rest,
        l <> [] -> all_ws indent = true -> all_ws stepback = true ->
        (list_sum (map (fun x => S (json_size x)) l) <= n)%nat ->
        parse_elements n
          (join ("," ++ newline ++ indent)
             (map (SerializeJSONProperty indent) l)
           ++ newline ++ stepback ++ String "]" rest)
        = Parsed l rest)
  /\ (forall l indent stepback rest,
        l <> [] -> all_ws indent = true -> all_ws stepback = true ->
        (list_sum (map (fun kv => S (json_size (snd kv))) l) <= n)%nat ->
        parse_members n
          (join ("," ++ newline ++ indent)
             (map (fun kv => QuoteJSONString (fst kv) ++ ": "
                     ++ SerializeJSONProperty indent (snd kv)) l)
           ++ newline ++ stepback ++ String "}" rest)
        = Parsed l rest).
Proof.
  induction n as [|n (IHP & IHQ & IHR)].
  { split; [|split].
    - intros v indent rest _ Hsize. pose proof (json_size_pos v). lia.
    - intros [|x l] indent stepback rest Hl _ _ Hsize; [contradiction|].
      simpl in Hsize. lia.
    - intros [|x l] indent stepback rest Hl _ _ Hsize; [contradiction|].
      simpl in Hsize. lia. }
  split; [|split].
  - intros v indent rest Hind Hsize Hrest.
    destruct v as [|[]|z|s|[|x l]|[|x l]]; try reflexivity.
    + (* number *)
      simpl SerializeJSONProperty.
      destruct (Number_toString_head z) as (c & r & Hs & Hc).
      rewrite Hs, append_cons, parse_value_number by exact Hc.
      rewrite <- append_cons, <- Hs. apply parse_number_toString, Hrest.
    + (* string *)
      simpl SerializeJSONProperty.
      rewrite QuoteJSONString_append, parse_value_string, parse_quote_chars.
      reflexivity.
    + (* array *)
      rewrite Serialize_array, append_cons, parse_value_array.
      rewrite !append_assoc.
      rewrite 3 skip_ws_append by (reflexivity || exact Hind).
      set (T := join _ _ ++ _).
      assert (HT : exists c r, T = String c r /\ value_start c = true).
      { unfold T. simpl map. rewrite join_cons.
        destruct (Serialize_head (indent ++ gap) x) as (c & r & Hs & Hc).
        rewrite Hs. exists c. eexists. split; [|exact Hc].
        rewrite !append_cons. reflexivity. }
      destruct HT as (c & r & HT & Hc).
      rewrite HT, (skip_ws_stop c r) by (apply value_start_not_ws, Hc).
      destruct (value_start_not_close c Hc) as [-> _].
      rewrite <- HT. unfold T.
      change ("]" ++ rest) with (String "]" rest).
      rewrite IHQ; [reflexivity|discriminate|apply all_ws_gap, Hind|exact Hind|].
      simpl in Hsize. simpl. lia.
    + (* object *)
      rewrite Serialize_object, append_cons, parse_value_object.
      rewrite !append_assoc.
      rewrite 3 skip_ws_append by (reflexivity || exact Hind).
      set (T := join _ _ ++ _).
      assert (HT : exists r, T = String DQUOTE r).
      { unfold T. simpl map. rewrite join_cons.
        rewrite !append_assoc, QuoteJSONString_append. eexists. reflexivity. }
      destruct HT as (r & HT).
      rewrite HT, (skip_ws_stop DQUOTE r) by reflexivity.
      change (Ascii.eqb DQUOTE "}") with false. cbv iota.
      rewrite <- HT. unfold T.
      change ("}" ++ rest) with (String "}" rest).
      rewrite IHR; [reflexivity|discriminate|apply all_ws_gap, Hind|exact Hind|].
      simpl in Hsize. simpl. lia.
  - intros [|x l] indent stepback rest Hl Hind Hstep Hsize; [contradiction|].
    simpl in Hsize. rewrite parse_elements_S.
    destruct l as [|y l]; simpl map.
    + rewrite join_one.
      rewrite IHP by (first [exact Hind | lia | reflexivity]).
      unfold parse_bind.
      rewrite <- (append_assoc newline stepback).
      rewrite skip_ws_append by (apply all_ws_newline, Hstep).
      rewrite skip_ws_stop by reflexivity. reflexivity.
    + rewrite join_two, !append_assoc.
      rewrite IHP by (first [exact Hind | simpl in Hsize; lia | reflexivity]).
      unfold parse_bind at 1.
      change ("," ++ newline ++ indent ++ ?X) with (String "," (newline ++ indent ++ X)).
      rewrite skip_ws_stop by reflexivity.
      change (Ascii.eqb "," ",") with true. cbv iota.
      rewrite <- (append_assoc newline indent).
      rewrite parse_elements_ws by (apply all_ws_newline, Hind).
      change (SerializeJSONProperty indent y
              :: map (SerializeJSONProperty indent) l)
        with (map (SerializeJSONProperty indent) (y :: l)).
      rewrite (IHQ (y :: l) indent stepback rest);
        [reflexivity|discriminate|exact Hind|exact Hstep|simpl in *; lia].
  - intros [|[k v] l] indent stepback rest Hl Hind Hstep Hsize; [contradiction|].
    simpl in Hsize. rewrite parse_members_S.
    set (member := fun kv : string * json =>
                     QuoteJSONString (fst kv) ++ ": "
                     ++ SerializeJSONProperty indent (snd kv)).
    assert (Hjoin : exists tail,
               join ("," ++ newline ++ indent) (map member ((k, v) :: l))
               ++ newline ++ stepback ++ String "}" rest
               = QuoteJSONString k ++ ": " ++ SerializeJSONProperty indent v
                   ++ tail
               /\ (l = [] -> tail = newline ++ stepback ++ String "}" rest)
               /\ (forall y l', l = y :: l' ->
                     tail = "," ++ newline ++ indent
                            ++ join ("," ++ newline ++ indent) (map member l)
                            ++ newline ++ stepback ++ String "}" rest)).
    { destruct l as [|y l']; simpl map.
      - rewrite join_one. unfold member at 1. simpl fst. simpl snd.
        rewrite !append_assoc. eexists. split; [reflexivity|].
        split; [reflexivity|discriminate].
      - rewrite join_two. unfold member at 1. simpl fst. simpl snd.
        rewrite !append_assoc. eexists. split; [reflexivity|].
        split; [discriminate|]. intros y0 l0 [= <- <-]. reflexivity. }
    destruct Hjoin as (tail & -> & Hnil & Hcons).
    rewrite QuoteJSONString_append.
    rewrite skip_ws_stop by reflexivity.
    change (Ascii.eqb DQUOTE DQUOTE) with true. cbv iota.
    rewrite parse_quote_chars. unfold parse_bind at 1.
    change (": " ++ ?X) with (String ":" (" " ++ X)).
    rewrite skip_ws_stop by reflexivity.
    change (Ascii.eqb ":" ":") with true. cbv iota.
    rewrite parse_value_ws by reflexivity.
    destruct l as [|y l].
    + rewrite (Hnil eq_refl).
      rewrite IHP by (first [exact Hind | lia | reflexivity]).
      unfold parse_bind.
      rewrite <- (append_assoc newline stepback).
      rewrite skip_ws_append by (apply all_ws_newline, Hstep).
      rewrite skip_ws_stop by reflexivity. reflexivity.
    + rewrite (Hcons y l eq_refl).
      rewrite IHP by (first [exact Hind | simpl in Hsize; lia | reflexivity]).
      unfold parse_bind at 1.
      change ("," ++ newline ++ indent ++ ?X) with (String "," (newline ++ indent ++ X)).
      rewrite skip_ws_stop by reflexivity.
      change (Ascii.eqb "," ",") with true. cbv iota.
      rewrite <- (append_assoc newline indent).
      rewrite parse_members_ws by (apply all_ws_newline, Hind).
      unfold member.
      rewrite (IHR (y :: l) indent stepback rest);
        [reflexivity|discriminate|exact Hind|exact Hstep|simpl in *; lia].
Qed.

(** *** Enough fuel *)

Lemma length_append (s1 s2 : string) :
  String.length (s1 ++ s2) = (String.length s1 + String.length s2)%nat.
Proof.
  induction s1 as [|a s1 IH]; [reflexivity|].
  rewrite append_cons. simpl. rewrite IH. reflexivity.
Qed.

(** A serialized value has at least one character for each of its values
    and list cells. *)
Lemma json_size_length (n : nat) :
  (forall v indent,
     (json_size v <= n)%nat ->
     (json_size v <= String.length (SerializeJSONProperty indent v))%nat)
  /\ (forall l indent sep,
        (list_sum (map (fun x => S (json_size x)) l) <= n)%nat ->
        (list_sum (map (fun x => S (json_size x)) l)
         <= S (String.length
                 (join (String "," sep) (map (SerializeJSONProperty indent) l))))%nat)
  /\ (forall l indent sep,
        (list_sum (map (fun kv => S (json_size (snd kv))) l) <= n)%nat ->
        (list_sum (map (fun kv => S (json_size (snd kv))) l)
         <= S (String.length
                 (join (String "," sep)
                    (map (fun kv => QuoteJSONString (fst kv) ++ ": "
                            ++ SerializeJSONProperty indent (snd kv)) l))))%nat).
Proof.
  induction n as [|n (IHP & IHQ & IHR)].
  { split; [|split].
    - intros v indent Hsize. pose proof (json_size_pos v). lia.
    - intros [|x l] indent sep Hsize; simpl in *; lia.
    - intros [|x l] indent sep Hsize; simpl in *; lia. }
  split; [|split].
  - intros v indent Hsize.
    destruct v as [|[]|z|s|[|x l]|[|x l]]; try (simpl; lia).
    + simpl. destruct (Number_toString_head z) as (c & r & -> & _). simpl. lia.
    + rewrite Serialize_array.
      change (json_size (JArr (x :: l)))
        with (S (list_sum (map (fun x => S (json_size x)) (x :: l)))) in *.
      pose proof (IHQ (x :: l) (indent ++ gap) (newline ++ indent ++ gap)
                    ltac:(lia)) as Hq.
      change (String "," (newline ++ indent ++ gap))
        with ("," ++ newline ++ indent ++ gap) in Hq.
      set (J := join _ _) in *. clearbody J.
      simpl String.length. rewrite !length_append. simpl String.length. lia.
    + rewrite Serialize_object.
      change (json_size (JObj (x :: l)))
        with (S (list_sum (map (fun kv => S (json_size (snd kv))) (x :: l)))) in *.
      pose proof (IHR (x :: l) (indent ++ gap) (newline ++ indent ++ gap)
                    ltac:(lia)) as Hr.
      change (String "," (newline ++ indent ++ gap))
        with ("," ++ newline ++ indent ++ gap) in Hr.
      set (J := join _ _) in *. clearbody J.
      simpl String.length. rewrite !length_append. simpl String.length. lia.
  - intros [|x l] indent sep Hsize; [simpl; lia|].
    simpl map in *. simpl list_sum in *.
    pose proof (IHP x indent ltac:(lia)) as Hx.
    pose proof (IHQ l indent sep ltac:(lia)) as Hl.
    destruct l as [|y l].
    + rewrite join_one. simpl list_sum in *. lia.
    + simpl map in *. rewrite join_two, !length_append.
      set (J := join _ _) in *. clearbody J.
      simpl String.length. simpl list_sum in *. lia.
  - intros [|[k v] l] indent sep Hsize; [simpl; lia|].
    simpl map in *. simpl list_sum in *. simpl fst. simpl snd in *.
    pose proof (IHP v indent ltac:(lia)) as Hx.
    pose proof (IHR l indent sep ltac:(lia)) as Hl.
    destruct l as [|y l].
    + rewrite join_one, !length_append. simpl list_sum in *. lia.
    + simpl map in *. rewrite join_two, !length_append.
      set (J := join _ _) in *. clearbody J.
      simpl list_sum in *.
      change (String.length (String "," sep)) with (S (String.length sep)).
      lia.
Qed.

(** [JSON.parse] reads back what [JSON.stringify] writes. *)
Lemma parse_after_stringify (v : json) :
  JSON.parse (JSON.stringify v) = Parsed v "".
Proof.
  unfold JSON.parse, JSON.stringify.
  pose proof (proj1 (json_size_length (json_size v)) v "" (Nat.le_refl _))
    as Hlen.
  rewrite <- (append_nil_r (SerializeJSONProperty "" v)) at 2.
  assert (Hfuel : (json_size v
                   <= S (2 * String.length (SerializeJSONProperty "" v)))%nat)
    by lia.
  rewrite (proj1 (parse_serialized _) v "" "" eq_refl Hfuel eq_refl).
  reflexivity.
Qed.

(** *** The catalog is read back from its document *)

Lemma image_of_json_of_image img : image_of_json (json_of_image img) = Some img.
Proof. destruct img. reflexivity. Qed.

Lemma images_of_json_of_images imgs :
  images_of_json (map json_of_image imgs) = Some imgs.
Proof.
  induction imgs as [|img imgs IH]; [reflexivity|].
  change (images_of_json (map json_of_image (img :: imgs)))
    with (match image_of_json (json_of_image img),
                images_of_json (map json_of_image imgs) with
          | Some i, Some l => Some (i :: l)
          | _, _ => None
          end).
  rewrite image_of_json_of_image, IH. reflexivity.
Qed.

Lemma data_of_json_of_data d : data_of_json (json_of_data d) = Some d.
Proof.
  destruct d as [imgs [a b c]]. unfold json_of_data, data_of_json.
  simpl images. simpl stats.
  change (match images_of_json (map json_of_image imgs),
                stats_of_json (json_of_stats
                   {| totalVisits := a; totalImages := b; totalFavorites := c |})
          with
          | Some imgs0, Some st' => Some {| images := imgs0; stats := st' |}
          | _, _ => None
          end
          = Some {| images := imgs;
                    stats := {| totalVisits := a; totalImages := b;
                                totalFavorites := c |} |}).
  rewrite images_of_json_of_images. reflexivity.
Qed.

Lemma load_stringify (d : StoryboardData) :
  load (Some (JSON.stringify (json_of_data d))) = Loaded d.
Proof.
  unfold load. rewrite parse_after_stringify, data_of_json_of_data.
  reflexivity.
Qed.

(** C8. The document that [saveData] writes is read back at start-up as
    the catalog it was written from: the same entries in the same order
    with the same fields, and the same three counters. *)
Theorem load_after_save (w : World) :
  load (data_json (saveData w)) = Loaded (storyboardData w).
Proof. apply load_stringify. Qed.

(** *** A restart at any time *)

Lemma in_sync_saveData w : in_sync (saveData w).
Proof. apply load_stringify. Qed.

Lemma serve_in_sync r w : in_sync w -> in_sync (fst (serve r w)).
Proof.
  intros Hw. destruct r; simpl; try exact Hw.
  - destruct page; [exact Hw|apply in_sync_saveData].
  - unfold upload_single.
    destruct (valueTruncated req_title || valueTruncated req_description);
      [exact Hw|].
    destruct att as [file|]; simpl.
    + destruct (String.eqb (originalname file) ""); [exact Hw|].
      destruct (fileFilter file); [|exact Hw].
      destruct (size file <? fileSize_limit); [|exact Hw].
      unfold post_upload.
      destruct (negb (truthy req_title) || negb (truthy req_description));
        [|apply in_sync_saveData].
      destruct (fs.unlinkSync _ _) as [w'|] eqn:Hu; [|exact Hw].
      unfold fs.unlinkSync in Hu. destruct (strip_prefix _ _); [|discriminate].
      destruct (decide _); [|discriminate]. injection Hu as <-. exact Hw.
    + exact Hw.
  - unfold post_favorite, toggleFavorite.
    destruct (list_find _ _) as [[i image]|]; [apply in_sync_saveData|exact Hw].
  - unfold delete_image, deleteImage.
    destruct (list_find _ _) as [[i image]|]; [apply in_sync_saveData|exact Hw].
  - unfold post_login. destruct (strict_equal_string _ _); exact Hw.
Qed.

(** Whenever the process is stopped between two requests and started
    again, it reads the catalog it had. *)
Lemma restart_reloads (rs : list request) (blobs : gset string) :
  in_sync (run rs {| storyboardData := initial_data; data_json := None;
                     uploads := blobs |}).
Proof.
  set (w := {| storyboardData := initial_data; data_json := None;
               uploads := blobs |}).
  assert (Hw : in_sync w) by reflexivity. clearbody w.
  revert w Hw. induction rs as [|r rs IH]; intros w Hw; [exact Hw|].
  simpl. apply IH, serve_in_sync, Hw.
Qed.

(** ** The fuel of the descent *)

Lemma skip_ws_length s : (String.length (skip_ws s) <= String.length s)%nat.
Proof.
  induction s as [|c s IH]; simpl; [lia|].
  destruct (is_json_ws c); simpl; lia.
Qed.

Lemma parse_bind_Parsed {A B} (r : parse_result A)
    (k : A -> string -> parse_result B) b rest :
  parse_bind r k = Parsed b rest ->
  exists a rest0, r = Parsed a rest0 /\ k a rest0 = Parsed b rest.
Proof. destruct r; simpl; intros H; try discriminate. eauto. Qed.

Lemma parse_string_chars_length_bounded (n : nat) : forall s t rest,
  (String.length s <= n)%nat ->
  parse_string_chars s = Parsed t rest -> (String.length rest < String.length s)%nat.
Proof.
  induction n as [|n IHn]; intros s t rest Hn;
    (destruct s as [|c r]; simpl in *; [discriminate|]); [lia|].
  assert (IH : forall s' t' rest', (String.length s' <= n)%nat ->
               parse_string_chars s' = Parsed t' rest' ->
               (String.length rest' < String.length s')%nat) by exact IHn.
  clear IHn.
  destruct (Ascii.eqb c DQUOTE); [intros [= _ <-]; lia|].
  destruct (Ascii.eqb c "\").
  - destruct r as [|e r1]; [discriminate|].
    assert (Hsimple : forall x : ascii,
               parse_bind (parse_string_chars r1)
                 (fun t0 rest0 => Parsed (String x t0) rest0) = Parsed t rest ->
               (String.length rest < S (S (String.length r1)))%nat).
    { intros x H. apply parse_bind_Parsed in H as (a & rest0 & H1 & [= _ <-]).
      apply IH in H1; simpl in *; lia. }
    repeat match goal with
           | |- (if Ascii.eqb e ?x then _ else _) = _ -> _ =>
               destruct (Ascii.eqb e x); [first [apply Hsimple | idtac]|]
           end; try discriminate.
    destruct r1 as [|h1 [|h2 [|h3 [|h4 r2]]]]; try discriminate.
    destruct (hex_value h1), (hex_value h2), (hex_value h3), (hex_value h4);
      try discriminate.
    match goal with |- (if ?b then _ else _) = _ -> _ => destruct b end;
      [discriminate|].
    intros H. apply parse_bind_Parsed in H as (a & rest0 & H1 & [= _ <-]).
    apply IH in H1; simpl in *; lia.
  - destruct (N_of_ascii c <? 32)%N; [discriminate|].
    intros H. apply parse_bind_Parsed in H as (a & rest0 & H1 & [= _ <-]).
    apply IH in H1; simpl in *; lia.
Qed.

Lemma parse_string_chars_length s t rest :
  parse_string_chars s = Parsed t rest -> (String.length rest < String.length s)%nat.
Proof. apply (parse_string_chars_length_bounded (String.length s)). lia. Qed.


Lemma strip_prefix_length p : forall s r,
  strip_prefix p s = Some r -> String.length s = (String.length p + String.length r)%nat.
Proof.
  induction p as [|a p IH]; intros s r; simpl.
  - intros [= ->]. reflexivity.
  - destruct s as [|b s]; [discriminate|].
    destruct (Ascii.eqb a b); [|discriminate].
    intros H. apply IH in H. simpl. lia.
Qed.

Lemma expect_length lit v s a rest :
  lit <> "" -> expect lit v s = Parsed a rest -> (String.length rest < String.length s)%nat.
Proof.
  intros Hlit. unfold expect.
  destruct (strip_prefix lit s) as [r|] eqn:Hs; [|discriminate].
  intros [= _ <-]. apply strip_prefix_length in Hs.
  destruct lit; [contradiction|]. simpl in Hs. lia.
Qed.

Lemma parse_digits_length s : (String.length (snd (parse_digits s)) <= String.length s)%nat.
Proof.
  induction s as [|c s IH]; simpl; [lia|].
  destruct (is_digit c); [|simpl; lia].
  destruct (parse_digits s) as [d rest]. simpl in *. lia.
Qed.

Lemma parse_number_tail_rest n s v rest :
  parse_number_tail n s = Parsed v rest -> rest = s.
Proof.
  unfold parse_number_tail. destruct s as [|c r]; [intros [= _ <-]; reflexivity|].
  destruct (Ascii.eqb c ".").
  { destruct (starts_with_digit r); discriminate. }
  destruct (Ascii.eqb c "e" || Ascii.eqb c "E").
  { destruct r as [|c' r']; [discriminate|].
    destruct (Ascii.eqb c' "+" || Ascii.eqb c' "-").
    - destruct (starts_with_digit r'); discriminate.
    - destruct (is_digit c'); discriminate. }
  intros [= _ <-]. reflexivity.
Qed.

Lemma parse_unsigned_length sign s v rest :
  parse_unsigned sign s = Parsed v rest -> (String.length rest < String.length s)%nat.
Proof.
  unfold parse_unsigned. destruct s as [|c r]; [discriminate|].
  destruct (Ascii.eqb c "0").
  { intros H. apply parse_number_tail_rest in H as ->. simpl. lia. }
  destruct (is_digit c) eqn:Hc; [|discriminate].
  pose proof (parse_digits_length r) as Hlen.
  simpl parse_digits. rewrite Hc.
  destruct (parse_digits r) as [d rest0]. simpl in Hlen.
  intros H. apply parse_number_tail_rest in H as ->. simpl. lia.
Qed.

Lemma parse_number_length s v rest :
  parse_number s = Parsed v rest -> (String.length rest < String.length s)%nat.
Proof.
  unfold parse_number. destruct s as [|c r]; [discriminate|].
  destruct (Ascii.eqb c "-"); intros H; apply parse_unsigned_length in H;
    simpl in *; lia.
Qed.

(** Every value, list of elements and list of members takes at least one
    character of the text. *)
Lemma parse_consumes (n : nat) :
  (forall s v rest, parse_value n s = Parsed v rest -> (String.length rest < String.length s)%nat)
  /\ (forall s l rest,
        parse_elements n s = Parsed l rest -> (String.length rest < String.length s)%nat)
  /\ (forall s l rest,
        parse_members n s = Parsed l rest -> (String.length rest < String.length s)%nat).
Proof.
  induction n as [|n (IHP & IHQ & IHR)]; [repeat split; discriminate|].
  split; [|split].
  - intros s v rest. rewrite parse_value_S.
    pose proof (skip_ws_length s) as Hws.
    destruct (skip_ws s) as [|c r]; [discriminate|]. simpl in Hws.
    destruct (Ascii.eqb c "n").
    { intros H. apply expect_length in H; [simpl in H; lia|discriminate]. }
    destruct (Ascii.eqb c "t").
    { intros H. apply expect_length in H; [simpl in H; lia|discriminate]. }
    destruct (Ascii.eqb c "f").
    { intros H. apply expect_length in H; [simpl in H; lia|discriminate]. }
    destruct (Ascii.eqb c DQUOTE).
    { intros H. apply parse_bind_Parsed in H as (a & r0 & H1 & [= _ <-]).
      apply parse_string_chars_length in H1. lia. }
    destruct (Ascii.eqb c "[").
    { pose proof (skip_ws_length r) as Hr.
      destruct (skip_ws r) as [|c' r']; [discriminate|]. simpl in Hr.
      destruct (Ascii.eqb c' "]"); [intros [= _ <-]; lia|].
      intros H. apply parse_bind_Parsed in H as (a & r0 & H1 & [= _ <-]).
      apply IHQ in H1. simpl in H1. lia. }
    destruct (Ascii.eqb c "{").
    { pose proof (skip_ws_length r) as Hr.
      destruct (skip_ws r) as [|c' r']; [discriminate|]. simpl in Hr.
      destruct (Ascii.eqb c' "}"); [intros [= _ <-]; lia|].
      intros H. apply parse_bind_Parsed in H as (a & r0 & H1 & [= _ <-]).
      apply IHR in H1. simpl in H1. lia. }
    intros H. apply parse_number_length in H. simpl in H. lia.
  - intros s l rest. rewrite parse_elements_S. intros H.
    apply parse_bind_Parsed in H as (v & r0 & H1 & H2).
    apply IHP in H1. pose proof (skip_ws_length r0) as Hr.
    destruct (skip_ws r0) as [|c r1]; [discriminate|]. simpl in Hr.
    destruct (Ascii.eqb c ",").
    { apply parse_bind_Parsed in H2 as (a & r2 & H3 & [= _ <-]).
      apply IHQ in H3. lia. }
    destruct (Ascii.eqb c "]"); [|discriminate].
    injection H2 as _ <-. lia.
  - intros s l rest. rewrite parse_members_S.
    pose proof (skip_ws_length s) as Hws.
    destruct (skip_ws s) as [|c r]; [discriminate|]. simpl in Hws.
    destruct (Ascii.eqb c DQUOTE); [|discriminate]. intros H.
    apply parse_bind_Parsed in H as (k & r0 & H1 & H2).
    apply parse_string_chars_length in H1.
    pose proof (skip_ws_length r0) as Hr0.
    destruct (skip_ws r0) as [|c1 r1]; [discriminate|]. simpl in Hr0.
    destruct (Ascii.eqb c1 ":"); [|discriminate].
    apply parse_bind_Parsed in H2 as (v & r2 & H3 & H4).
    apply IHP in H3. pose proof (skip_ws_length r2) as Hr2.
    destruct (skip_ws r2) as [|c2 r3]; [discriminate|]. simpl in Hr2.
    destruct (Ascii.eqb c2 ",").
    { apply parse_bind_Parsed in H4 as (a & r4 & H5 & [= _ <-]).
      apply IHR in H5. lia. }
    destruct (Ascii.eqb c2 "}"); [|discriminate].
    injection H4 as _ <-. lia.
Qed.

(** With the fuel that [JSON.parse] gives it, the descent never runs out:
    one more unit of fuel changes nothing. *)
Lemma parse_fuel_stable (n : nat) :
  (forall s, (2 * String.length s + 1 <= n)%nat ->
             parse_value (S n) s = parse_value n s)
  /\ (forall s, (2 * String.length s + 2 <= n)%nat ->
                parse_elements (S n) s = parse_elements n s)
  /\ (forall s, (2 * String.length s + 1 <= n)%nat ->
                parse_members (S n) s = parse_members n s).
Proof.
  induction n as [|n (IHP & IHQ & IHR)]; [repeat split; intros s H; lia|].
  split; [|split].
  - intros s Hn. rewrite (parse_value_S (S n)), (parse_value_S n).
    pose proof (skip_ws_length s) as Hws.
    destruct (skip_ws s) as [|c r]; [reflexivity|]. simpl in Hws.
    cbv zeta.
    repeat match goal with
           | |- (if Ascii.eqb c ?x then _ else _) = _ =>
               destruct (Ascii.eqb c x); [try reflexivity|]
           end; try reflexivity.
    + pose proof (skip_ws_length r) as Hr.
      destruct (skip_ws r) as [|c' r']; [reflexivity|]. simpl in Hr.
      cbv zeta. destruct (Ascii.eqb c' "]"); [reflexivity|].
      rewrite IHQ by (simpl; lia). reflexivity.
    + pose proof (skip_ws_length r) as Hr.
      destruct (skip_ws r) as [|c' r']; [reflexivity|]. simpl in Hr.
      cbv zeta. destruct (Ascii.eqb c' "}"); [reflexivity|].
      rewrite IHR by (simpl; lia). reflexivity.
  - intros s Hn. rewrite (parse_elements_S (S n)), (parse_elements_S n).
    rewrite IHP by lia.
    destruct (parse_value n s) as [v r0| |] eqn:Hv; try reflexivity.
    apply (proj1 (parse_consumes n)) in Hv. cbn [parse_bind].
    pose proof (skip_ws_length r0) as Hr.
    destruct (skip_ws r0) as [|c r1]; [reflexivity|]. simpl in Hr.
    destruct (Ascii.eqb c ","); [|reflexivity].
    rewrite IHQ by lia. reflexivity.
  - intros s Hn. rewrite (parse_members_S (S n)), (parse_members_S n).
    pose proof (skip_ws_length s) as Hws.
    destruct (skip_ws s) as [|c r]; [reflexivity|]. simpl in Hws.
    destruct (Ascii.eqb c DQUOTE); [|reflexivity].
    destruct (parse_string_chars r) as [k r0| |] eqn:Hk; try reflexivity.
    apply parse_string_chars_length in Hk. cbn [parse_bind].
    pose proof (skip_ws_length r0) as Hr0.
    destruct (skip_ws r0) as [|c1 r1]; [reflexivity|]. simpl in Hr0.
    destruct (Ascii.eqb c1 ":"); [|reflexivity].
    rewrite IHP by lia.
    destruct (parse_value n r1) as [v r2| |] eqn:Hv; try reflexivity.
    apply (proj1 (parse_consumes n)) in Hv. cbn [parse_bind].
    pose proof (skip_ws_length r2) as Hr2.
    destruct (skip_ws r2) as [|c2 r3]; [reflexivity|]. simpl in Hr2.
    destruct (Ascii.eqb c2 ","); [|reflexivity].
    rewrite IHR by lia. reflexivity.
Qed.

(** [JSON.parse] gives the answer of the descent with any amount of fuel
    above its own. *)
Lemma parse_fuel_enough (text : string) (extra : nat) :
  parse_value (S (2 * String.length text) + extra) text
  = parse_value (S (2 * String.length text)) text.
Proof.
  induction extra as [|extra IH].
  - rewrite Nat.add_0_r. reflexivity.
  - rewrite <- IH. rewrite Nat.add_succ_r.
    apply (proj1 (parse_fuel_stable _)). lia.
Qed.

(** ** The model on concrete inputs *)

(** The examples of the Node.js documentation of [path.extname]. *)
Example extname_documented :
  map path.extname
    ["index.html"; "index.coffee.md"; "index."; "index"; ".index"; ".index.md"]
  = [".html"; ".md"; "."; ""; ""; ".md"].
Proof. reflexivity. Qed.

Example extname_of_directories :
  map path.extname ["a.b/c"; "a/b.c/"; ".."; "../x.gif"; "x/.y"]
  = [""; ".c"; ""; ".gif"; ""].
Proof. reflexivity. Qed.

Example parseInt_samples :
  map parseInt ["42"; "5abc"; "007"; "  12"; "-3"; "+5"; "0x1f"; "0X10";
                "1e3"; "abc"; ""; "-"; "0x"; ".5"]
  = [Some 42; Some 5; Some 7; Some 12; Some (-3); Some 5; Some 31; Some 16;
     Some 1; None; None; None; None; None].
Proof. reflexivity. Qed.

(** From 2^53 on the number is the nearest double, the even one of two
    that are as near. *)
Example parseInt_rounds :
  map parseInt ["9007199254740992"; "9007199254740993"; "9007199254740995";
                "-9007199254740993"]
  = [Some 9007199254740992; Some 9007199254740992; Some 9007199254740996;
     Some (-9007199254740992)].
Proof. reflexivity. Qed.

(** The visit counter stops at 2^53. *)
Example increment_stops :
  map increment [41; 2 ^ 53 - 1; 2 ^ 53] = [42; 2 ^ 53; 2 ^ 53].
Proof. reflexivity. Qed.

Example stringify_empty_catalog :
  JSON.stringify (json_of_data initial_data)
  = "{" ++ newline
    ++ "  " ++ String DQUOTE "images" ++ String DQUOTE ": []," ++ newline
    ++ "  " ++ String DQUOTE "stats" ++ String DQUOTE ": {" ++ newline
    ++ "    " ++ String DQUOTE "totalVisits" ++ String DQUOTE ": 0," ++ newline
    ++ "    " ++ String DQUOTE "totalImages" ++ String DQUOTE ": 0," ++ newline
    ++ "    " ++ String DQUOTE "totalFavorites" ++ String DQUOTE ": 0" ++ newline
    ++ "  }" ++ newline
    ++ "}".
Proof. reflexivity. Qed.

Example parse_samples :
  map JSON.parse ["[1, 2]"; "[1,]"; "01"; "1.5"; "nul"; " {} "; "[1.5e3, 2]";
                  "[1.5, 2"; "[1.e3]"]
  = [Parsed (JArr [JNum 1; JNum 2]) ""; SyntaxError; SyntaxError;
     NotModelled; SyntaxError; Parsed (JObj []) ""; NotModelled;
     SyntaxError; SyntaxError].
Proof. reflexivity. Qed.

(** Start-up on no document, on texts that are not JSON, and on
    documents that hold something else than a catalog. *)
Example load_samples :
  map load [None; Some "{ not json"; Some "[1.5"; Some "[1.5]"; Some "[]"]
  = [Loaded initial_data; Loaded initial_data; Loaded initial_data; Opaque;
     Untyped (JArr [])].
Proof. reflexivity. Qed.

(** A file of exactly the size limit is refused, and so is a file part
    without a file name. *)
Example upload_limits :
  map (fun file =>
         snd (serve (PostUpload sample_env (Some file) (Some "Cat")
                       (Some "A cat")) sample_world))
    [{| originalname := "cat.png"; mimetype := "image/png";
        size := fileSize_limit |};
     {| originalname := "cat.png"; mimetype := "image/png";
        size := fileSize_limit - 1 |};
     {| originalname := ""; mimetype := "image/png"; size := 10 |}]
  = [error 400 "File too large. Maximum size is 10MB.";
     ok (UploadJson
           {| id := now_id sample_env; title := "Cat"; description := "A cat";
              date := now_iso sample_env; isFavorite := false;
              filename := storage_filename sample_env sample_png;
              url := "/uploads/" ++ storage_filename sample_env sample_png |}
           "Image uploaded successfully");
     error 400 "No image file provided"].
Proof. reflexivity. Qed.

(** An upload, two requests for the page, of which the one that finds no
    page is counted, and a favorite toggle, from the empty catalog. *)
Example sample_run :
  storyboardData
    (run [PostUpload sample_env (Some sample_png) (Some "Cat") (Some "A cat");
          GetRoot PagePresent;
          GetRoot (PageMissing "ENOENT: no such file or directory");
          PostFavorite "1700000000001"]
       {| storyboardData := initial_data; data_json := None; uploads := ∅ |})
  = {| images :=
         [{| id := 1700000000001; title := "Cat"; description := "A cat";
             date := "2023-11-14T22:13:20.001Z"; isFavorite := true;
             filename := "1700000000000-123456789.png";
             url := "/uploads/1700000000000-123456789.png" |}];
       stats := {| totalVisits := 1; totalImages := 1; totalFavorites := 1 |} |}.
Proof. reflexivity. Qed.

(** * Further properties of the server *)

(** ** Page views *)

Lemma post_upload_totalVisits ev file t d w :
  totalVisits (stats (storyboardData (fst (post_upload ev file t d w))))
  = totalVisits (stats (storyboardData w)).
Proof.
  unfold post_upload. destruct file as [f|]; [|reflexivity].
  destruct (negb (truthy t) || negb (truthy d)); [|reflexivity].
  pose proof (storyboardData_unlink (file_path f) w) as Hu.
  destruct (fs.unlinkSync (file_path f) w); simpl in *; [rewrite Hu|];
    reflexivity.
Qed.

Lemma serve_totalVisits r w :
  totalVisits (stats (storyboardData (fst (serve r w))))
  = if reaches_route r
    then increment (totalVisits (stats (storyboardData w)))
    else totalVisits (stats (storyboardData w)).
Proof.
  destruct r; simpl; try reflexivity.
  - destruct page; reflexivity.
  - pose proof (upload_single_data ev att req_title req_description w) as Hd.
    pose proof (post_upload_totalVisits ev) as Hp.
    destruct (upload_single ev att req_title req_description w)
      as [w1 [err|file]]; simpl in *.
    + rewrite Hd. reflexivity.
    + rewrite Hp, Hd. reflexivity.
  - unfold post_favorite, toggleFavorite.
    destruct (list_find _ _) as [[i image]|]; reflexivity.
  - unfold delete_image, deleteImage.
    destruct (list_find _ _) as [[i image]|]; reflexivity.
  - unfold post_login. destruct (strict_equal_string _ _); reflexivity.
Qed.

Lemma increment_small n : -2 ^ 53 <= n < 2 ^ 53 -> increment n = n + 1.
Proof. intros Hn. unfold increment. apply round_to_double_small. lia. Qed.

(** X1. [totalVisits] counts the requests for [/] that reach the route,
    which are those that arrive while [public/index.html] is missing; a
    request that [express.static] answers with the page is not counted,
    and no other route touches the counter.  The count is exact as long
    as the counter stays within the integers that a double holds. *)
Theorem visits_are_counted (rs : list request) (w : World) :
  -2 ^ 53 <= totalVisits (stats (storyboardData w)) ->
  totalVisits (stats (storyboardData w)) + routed_visits rs <= 2 ^ 53 ->
  totalVisits (stats (storyboardData (run rs w)))
  = totalVisits (stats (storyboardData w)) + routed_visits rs.
Proof.
  revert w. induction rs as [|r rs IH]; intros w Hlow Hhigh.
  - unfold routed_visits. simpl. lia.
  - assert (Hcons : routed_visits (r :: rs)
                    = (if reaches_route r then 1 else 0) + routed_visits rs).
    { unfold routed_visits. simpl. destruct (reaches_route r); simpl length; lia. }
    assert (Hpos : 0 <= routed_visits rs) by (unfold routed_visits; lia).
    rewrite Hcons in *. simpl run.
    pose proof (serve_totalVisits r w) as Hstep.
    destruct (reaches_route r).
    + rewrite increment_small in Hstep by lia.
      rewrite IH; rewrite Hstep; lia.
    + rewrite IH; rewrite Hstep; lia.
Qed.

Lemma visits_are_counted_witness :
  routed_visits sample_requests = 1
  /\ totalVisits (stats (storyboardData (run sample_requests sample_world)))
     = totalVisits (stats (storyboardData sample_world)) + 1.
Proof.
  split; [reflexivity|].
  apply (visits_are_counted sample_requests sample_world);
    vm_compute; discriminate.
Defined.

(** ** Requests that are refused *)

Lemma unlink_stored name w :
  fs.unlinkSync ("uploads/" ++ name) (set_uploads ({[ name ]} ∪ uploads w) w)
  = Some (set_uploads (({[ name ]} ∪ uploads w) ∖ {[ name ]}) w).
Proof.
  unfold fs.unlinkSync. rewrite strip_prefix_app. simpl.
  destruct (decide (name ∈ {[ name ]} ∪ uploads w)) as [_|Hn]; [reflexivity|].
  exfalso. apply Hn, elem_of_union. left. apply elem_of_singleton. reflexivity.
Qed.

(** The upload route, case by case. *)
Lemma serve_upload ev att t d w :
  serve (PostUpload ev att t d) w
  = if valueTruncated t || valueTruncated d then
      (w, error 500 "Field value too long")
    else
      match att with
      | None => (w, error 400 "No image file provided")
      | Some file =>
          if String.eqb (originalname file) "" then
            (w, error 400 "No image file provided")
          else if fileFilter file then
            let uniqueName := storage_filename ev file in
            if size file <? fileSize_limit then
              if truthy t && truthy d then
                post_upload ev
                  (Some {| file_originalname := originalname file;
                           file_mimetype := mimetype file;
                           file_filename := uniqueName;
                           file_path := "uploads/" ++ uniqueName |})
                  t d (set_uploads ({[ uniqueName ]} ∪ uploads w) w)
              else
                (set_uploads
                   (({[ uniqueName ]} ∪ uploads w) ∖ {[ uniqueName ]}) w,
                 error 400 "Title and description are required")
            else
              (set_uploads (uploads w ∖ {[ uniqueName ]}) w,
               error 400 "File too large. Maximum size is 10MB.")
          else (w, error 500 "Only image files are allowed!")
      end.
Proof.
  unfold serve, upload_single.
  destruct (valueTruncated t || valueTruncated d); [reflexivity|].
  destruct att as [file|]; [|reflexivity].
  destruct (String.eqb (originalname file) ""); [reflexivity|].
  destruct (fileFilter file); [|reflexivity].
  destruct (size file <? fileSize_limit); [|reflexivity].
  destruct (truthy t && truthy d) eqn:Htd; [reflexivity|].
  unfold post_upload. cbn [file_path].
  replace (negb (truthy t) || negb (truthy d)) with true
    by (destruct (truthy t), (truthy d); simpl in *; congruence).
  rewrite unlink_stored. reflexivity.
Qed.

Lemma post_upload_accepted ev f t d w :
  truthy t = true -> truthy d = true ->
  post_upload ev (Some f) t d w
  = (let newImage :=
       {| id := now_id ev; title := default "" t;
          description := default "" d; date := now_iso ev;
          isFavorite := false; filename := file_filename f;
          url := "/uploads/" ++ file_filename f |} in
     let imgs := newImage :: images (storyboardData w) in
     let st := stats (storyboardData w) in
     (saveData
        (set_data {| images := imgs;
                     stats := {| totalVisits := totalVisits st;
                                 totalImages := Z.of_nat (length imgs);
                                 totalFavorites := totalFavorites st |} |} w),
      ok (UploadJson newImage "Image uploaded successfully"))).
Proof. intros Ht Hd. unfold post_upload. rewrite Ht, Hd. reflexivity. Qed.

(** X2. A request that is answered with status 400, 401 or 404 leaves
    the catalog and the document as they were, and adds no file to
    [uploads]. *)
Theorem refused_request_changes_nothing (r : request) (w : World) :
  status (snd (serve r w)) = 400 \/ status (snd (serve r w)) = 401
  \/ status (snd (serve r w)) = 404 ->
  storyboardData (fst (serve r w)) = storyboardData w
  /\ data_json (fst (serve r w)) = data_json w
  /\ uploads (fst (serve r w)) ⊆ uploads w.
Proof.
  intros Hstatus.
  assert (Hno : forall x : World * response,
             serve r w = x -> status (snd x) = 200 \/ status (snd x) = 500 ->
             False).
  { intros x <- [H|H]; rewrite H in Hstatus;
      destruct Hstatus as [Hs|[Hs|Hs]]; discriminate Hs. }
  clear Hstatus. destruct r.
  - exfalso. apply (Hno _ eq_refl). destruct page; [left|right]; reflexivity.
  - exfalso. apply (Hno _ eq_refl). left. reflexivity.
  - exfalso. apply (Hno _ eq_refl). left. reflexivity.
  - rewrite serve_upload in *.
    destruct (valueTruncated req_title || valueTruncated req_description).
    { exfalso. apply (Hno _ eq_refl). right. reflexivity. }
    destruct att as [file|]; [|done].
    destruct (String.eqb (originalname file) ""); [done|].
    destruct (fileFilter file).
    2:{ exfalso. apply (Hno _ eq_refl). right. reflexivity. }
    destruct (size file <? fileSize_limit).
    + destruct (truthy req_title) eqn:Ht, (truthy req_description) eqn:Hd;
        simpl andb in *; cbv iota in *.
      1:{ exfalso. apply (Hno _ eq_refl). left.
          rewrite post_upload_accepted by assumption. reflexivity. }
      all: simpl; repeat split; intros x Hx;
        apply elem_of_difference in Hx as [Hx Hn];
        apply elem_of_union in Hx as [Hx|Hx]; [contradiction|exact Hx].
    + simpl. repeat split. intros x Hx.
      apply elem_of_difference in Hx as [Hx _]. exact Hx.
  - simpl in *. unfold post_favorite, toggleFavorite in *.
    destruct (list_find _ _) as [[i image]|]; [|done].
    exfalso. apply (Hno _ eq_refl). left. reflexivity.
  - simpl in *. unfold delete_image, deleteImage in *.
    destruct (list_find _ _) as [[i image]|]; [|done].
    exfalso. apply (Hno _ eq_refl). left. reflexivity.
  - simpl in *. unfold post_login in *.
    destruct (strict_equal_string _ _); [|done].
    exfalso. apply (Hno _ eq_refl). left. reflexivity.
Qed.

Lemma refused_request_changes_nothing_witness :
  status (snd (serve (PostUpload sample_env (Some sample_png) None
                        (Some "No title")) sample_world)) = 400
  /\ storyboardData
       (fst (serve (PostUpload sample_env (Some sample_png) None
                      (Some "No title")) sample_world))
     = storyboardData sample_world.
Proof.
  split; [reflexivity|].
  apply (refused_request_changes_nothing
           (PostUpload sample_env (Some sample_png) None (Some "No title"))
           sample_world).
  left. reflexivity.
Defined.

(** What [multer] and the handler ask of an upload. *)
Lemma upload_status ev att t d w :
  status (snd (serve (PostUpload ev att t d) w)) = 200
  <-> exists file, att = Some file
        /\ originalname file <> ""
        /\ fileFilter file = true
        /\ size file < fileSize_limit
        /\ valueTruncated t = false /\ valueTruncated d = false
        /\ truthy t = true /\ truthy d = true.
Proof.
  rewrite serve_upload.
  destruct (valueTruncated t) eqn:Htt.
  { split; [discriminate|]. intros (f & _ & _ & _ & _ & H & _).
    discriminate H. }
  destruct (valueTruncated d) eqn:Htd.
  { split; [discriminate|]. intros (f & _ & _ & _ & _ & _ & H & _).
    discriminate H. }
  simpl orb. cbv iota.
  destruct att as [file|].
  2:{ split; [discriminate|]. intros (f & Hf & _). discriminate Hf. }
  destruct (String.eqb_spec (originalname file) "") as [Hname|Hname].
  { split; [discriminate|]. intros (f & [= <-] & Hn & _). contradiction. }
  destruct (fileFilter file) eqn:Hfilter.
  2:{ split; [discriminate|]. intros (f & [= <-] & _ & Hf & _). congruence. }
  destruct (Z.ltb_spec (size file) fileSize_limit) as [Hsize|Hsize].
  2:{ split; [discriminate|]. intros (f & [= <-] & _ & _ & Hs & _). lia. }
  destruct (truthy t) eqn:Ht, (truthy d) eqn:Hd; simpl andb; cbv iota;
    try (split; [discriminate|];
         intros (f & _ & _ & _ & _ & _ & _ & Ht' & Hd'); congruence).
  rewrite post_upload_accepted by assumption. simpl.
  split; [|reflexivity]. intros _. exists file. auto 10.
Qed.

(** X3. The upload route answers 200 exactly when the request carries a
    file with a name, whose media type starts with [image/] and whose
    size is below the limit of 10 MiB, and the title and the description
    are both non-empty and below the limit of 1 MiB of a field; the
    handler's own 500 answer is never given, since the file it removes is
    the one just stored. *)
Theorem upload_accepted_iff (ev : Env) (att : option Attachment)
    (t d : option string) (w : World) :
  (status (snd (serve (PostUpload ev att t d) w)) = 200
   <-> exists file, att = Some file
         /\ originalname file <> ""
         /\ fileFilter file = true
         /\ size file < fileSize_limit
         /\ valueTruncated t = false /\ valueTruncated d = false
         /\ truthy t = true /\ truthy d = true)
  /\ snd (serve (PostUpload ev att t d) w) <> error 500 "Failed to upload image".
Proof.
  split; [apply upload_status|].
  rewrite serve_upload.
  destruct (valueTruncated t || valueTruncated d); [discriminate|].
  destruct att as [file|]; [|discriminate].
  destruct (String.eqb (originalname file) ""); [discriminate|].
  destruct (fileFilter file); [|discriminate].
  destruct (size file <? fileSize_limit); [|discriminate].
  destruct (truthy t) eqn:Ht, (truthy d) eqn:Hd; simpl andb; cbv iota;
    try discriminate.
  rewrite post_upload_accepted by assumption. discriminate.
Qed.

(** ** The files and the entries *)

Lemma map_filename_toggle (imgs : list ImageEntry) i img :
  imgs !! i = Some img ->
  map filename (<[ i := toggle img ]> imgs) = map filename imgs.
Proof.
  intros Hi. change (filename <$> <[ i := toggle img ]> imgs = filename <$> imgs).
  rewrite list_fmap_insert. apply list_insert_id.
  rewrite list_lookup_fmap, Hi. reflexivity.
Qed.

Lemma difference_fresh (x : string) (X : gset string) :
  x ∉ X -> X ∖ {[ x ]} = X.
Proof.
  intros Hx. apply set_eq. intros y.
  rewrite elem_of_difference, elem_of_singleton. split.
  - intros [Hy _]. exact Hy.
  - intros Hy. split; [exact Hy|]. intros ->. exact (Hx Hy).
Qed.

Lemma union_difference_fresh (x : string) (X : gset string) :
  x ∉ X -> ({[ x ]} ∪ X) ∖ {[ x ]} = X.
Proof.
  intros Hx. apply set_eq. intros y.
  rewrite elem_of_difference, elem_of_union, elem_of_singleton. split.
  - intros [[Hy|Hy] Hn]; [destruct (Hn Hy)|exact Hy].
  - intros Hy. split; [right; exact Hy|]. intros ->. exact (Hx Hy).
Qed.

Lemma serve_files_match r w :
  files_match w -> fresh_for r w -> files_match (fst (serve r w)).
Proof.
  intros [Hnd Hup] Hfresh. destruct r.
  - destruct page; split; assumption.
  - split; assumption.
  - split; assumption.
  - rewrite serve_upload.
    destruct (valueTruncated req_title || valueTruncated req_description);
      [split; assumption|].
    destruct att as [file|]; [|split; assumption].
    simpl in Hfresh.
    destruct (String.eqb (originalname file) ""); [split; assumption|].
    destruct (fileFilter file); [|split; assumption].
    specialize (Hfresh eq_refl).
    destruct (size file <? fileSize_limit).
    + destruct (truthy req_title) eqn:Ht, (truthy req_description) eqn:Hd;
        simpl andb; cbv iota.
      * rewrite post_upload_accepted by assumption. split; simpl.
        -- apply NoDup_cons. split; [|exact Hnd].
           rewrite Hup in Hfresh. intros Hin. apply Hfresh.
           apply elem_of_list_to_set. exact Hin.
        -- rewrite Hup. reflexivity.
      * split; [exact Hnd|]. simpl. rewrite <- Hup.
        apply union_difference_fresh, Hfresh.
      * split; [exact Hnd|]. simpl. rewrite <- Hup.
        apply union_difference_fresh, Hfresh.
      * split; [exact Hnd|]. simpl. rewrite <- Hup.
        apply union_difference_fresh, Hfresh.
    + split; [exact Hnd|]. simpl. rewrite <- Hup.
      apply difference_fresh, Hfresh.
  - simpl. unfold post_favorite, toggleFavorite.
    destruct (list_find _ _) as [[i image]|] eqn:Hfind; [|split; assumption].
    apply list_find_Some in Hfind as (Hi & _ & _).
    split; simpl; rewrite (map_filename_toggle _ _ _ Hi); assumption.
  - simpl. unfold delete_image, deleteImage.
    destruct (list_find _ _) as [[i image]|] eqn:Hfind; [|split; assumption].
    apply list_find_split in Hfind as (Hsplit & _ & _).
    set (l1 := take i (images (storyboardData w))) in *.
    set (l2 := drop (S i) (images (storyboardData w))) in *.
    rewrite Hsplit in Hnd, Hup.
    rewrite map_app in Hnd, Hup. simpl map in Hnd, Hup.
    apply NoDup_app in Hnd as (Hnd1 & Hdis & Hnd2).
    apply NoDup_cons in Hnd2 as (Hnot2 & Hnd2).
    assert (Hnot1 : filename image ∉ map filename l1).
    { intros Hin. apply (Hdis _ Hin). left. }
    unfold fs.unlinkSync. rewrite strip_prefix_app.
    destruct (decide (filename image ∈ uploads w)) as [_|Hn].
    2:{ exfalso. apply Hn. rewrite Hup, elem_of_list_to_set, elem_of_app.
        right. left. }
    split; simpl; rewrite delete_take_drop; fold l1 l2; rewrite map_app.
    + apply NoDup_app. split; [exact Hnd1|]. split; [|exact Hnd2].
      intros x Hx Hx2. apply (Hdis x Hx). right. exact Hx2.
    + rewrite Hup. apply set_eq. intros y.
      rewrite elem_of_difference, !elem_of_list_to_set, !elem_of_app,
        elem_of_cons, elem_of_singleton.
      split.
      * intros [[Hy|[Hy|Hy]] Hne]; [left; exact Hy|destruct (Hne Hy)|right; exact Hy].
      * intros [Hy|Hy].
        -- split; [left; exact Hy|]. intros ->. exact (Hnot1 Hy).
        -- split; [right; right; exact Hy|]. intros ->. exact (Hnot2 Hy).
  - simpl. unfold post_login. destruct (strict_equal_string _ _); split; assumption.
Qed.

Lemma run_files_match rs : forall w,
  files_match w -> fresh_names rs w -> files_match (run rs w).
Proof.
  induction rs as [|r rs IH]; intros w Hw Hfresh; [exact Hw|].
  destruct Hfresh as [Hr Hrs]. simpl run. apply IH; [|exact Hrs].
  apply serve_files_match; [exact Hw|exact Hr].
Qed.

(** X4. When the file names that [multer] generates are new each time,
    the files of [uploads] and the entries of the catalog stay in step
    over any run that starts with no entry and no file: every entry has
    its file, every file belongs to an entry, and no two entries share a
    file. *)
Theorem files_follow_entries (rs : list request) (doc : option string) :
  let w0 := {| storyboardData := initial_data; data_json := doc;
               uploads := ∅ |} in
  fresh_names rs w0 ->
  let w := run rs w0 in
  NoDup (map filename (images (storyboardData w)))
  /\ uploads w = list_to_set (map filename (images (storyboardData w))).
Proof.
  intros w0 Hfresh. apply run_files_match; [|exact Hfresh].
  split; [constructor|reflexivity].
Qed.

Lemma files_follow_entries_witness :
  fresh_names sample_requests empty_world
  /\ NoDup (map filename (images (storyboardData
                                    (run sample_requests empty_world))))
  /\ uploads (run sample_requests empty_world)
     = list_to_set (map filename (images (storyboardData
                                            (run sample_requests empty_world)))).
Proof.
  assert (H : fresh_names sample_requests empty_world).
  { repeat split; intros _; apply (bool_decide_eq_false_1 _); vm_compute; reflexivity. }
  split; [exact H|]. exact (files_follow_entries sample_requests None H).
Defined.

(** ** Restarts *)

Lemma run_in_sync rs : forall w, in_sync w -> in_sync (run rs w).
Proof.
  induction rs as [|r rs IH]; intros w Hw; [exact Hw|].
  simpl. apply IH, serve_in_sync, Hw.
Qed.

(** X5. Start-up and the routes fit together: when the server has
    started from a document (or from none, or from a text that is not
    JSON) with the catalog [d], then after any requests the document on
    disk is one from which a restart reads the catalog of that moment. *)
Theorem restart_at_any_time (rs : list request) (doc : option string)
    (d : StoryboardData) (blobs : gset string) :
  load doc = Loaded d ->
  let w := run rs {| storyboardData := d; data_json := doc;
                     uploads := blobs |} in
  load (data_json w) = Loaded (storyboardData w).
Proof. intros Hdoc. apply run_in_sync. exact Hdoc. Qed.

Lemma restart_at_any_time_witness :
  load (Some "{ not json") = Loaded initial_data
  /\ let w := run sample_requests
                {| storyboardData := initial_data;
                   data_json := Some "{ not json"; uploads := ∅ |} in
     load (data_json w) = Loaded (storyboardData w).
Proof.
  split; [reflexivity|].
  apply (restart_at_any_time sample_requests (Some "{ not json")
           initial_data ∅).
  reflexivity.
Defined.

(** ** An upload and its deletion *)

Lemma serve_upload_accepted ev att t d w :
  status (snd (serve (PostUpload ev att t d) w)) = 200 ->
  exists file,
    att = Some file
    /\ serve (PostUpload ev att t d) w
       = (let name := storage_filename ev file in
          let newImage :=
            {| id := now_id ev; title := default "" t;
               description := default "" d; date := now_iso ev;
               isFavorite := false; filename := name;
               url := "/uploads/" ++ name |} in
          let imgs := newImage :: images (storyboardData w) in
          let st := stats (storyboardData w) in
          (saveData
             (set_data
                {| images := imgs;
                   stats := {| totalVisits := totalVisits st;
                               totalImages := Z.of_nat (length imgs);
                               totalFavorites := totalFavorites st |} |}
                (set_uploads ({[ name ]} ∪ uploads w) w)),
           ok (UploadJson newImage "Image uploaded successfully"))).
Proof.
  intros Hok.
  apply upload_status in Hok
    as (file & -> & Hname & Hf & Hs & Htt & Htd & Ht & Hd).
  exists file. split; [reflexivity|].
  rewrite serve_upload, Htt, Htd. simpl orb. cbv iota.
  apply String.eqb_neq in Hname. rewrite Hname, Hf.
  destruct (Z.ltb_spec (size file) fileSize_limit); [|lia].
  rewrite Ht, Hd. simpl andb. cbv iota zeta.
  rewrite post_upload_accepted by assumption. reflexivity.
Qed.

(** X6. Deleting the entry that an accepted upload has just made, by the
    id of the upload's answer (a clock reading, which a double holds
    exactly), undoes the upload: the request succeeds, the entries are
    those of before, the counters are the numbers of entries and of
    favourites, and the stored file is gone (with any file that had the
    generated name before). *)
Theorem delete_undoes_upload (ev : Env) (att : option Attachment)
    (t d : option string) (w : World) :
  status (snd (serve (PostUpload ev att t d) w)) = 200 ->
  Z.abs (now_id ev) <= 2 ^ 53 ->
  let w1 := fst (serve (PostUpload ev att t d) w) in
  let r := serve (DeleteImage (Number_toString (now_id ev))) w1 in
  snd r = ok (SuccessJson "Image deleted successfully")
  /\ images (storyboardData (fst r)) = images (storyboardData w)
  /\ totalImages (stats (storyboardData (fst r)))
     = Z.of_nat (length (images (storyboardData w)))
  /\ totalFavorites (stats (storyboardData (fst r)))
     = count_favorites (images (storyboardData w))
  /\ totalVisits (stats (storyboardData (fst r)))
     = totalVisits (stats (storyboardData w))
  /\ exists file,
       att = Some file
       /\ uploads (fst r) = uploads w ∖ {[ storage_filename ev file ]}.
Proof.
  intros Hok Hid w1 r. subst r w1.
  destruct (serve_upload_accepted ev att t d w Hok) as (file & -> & ->).
  cbv zeta.
  simpl fst. simpl serve. unfold delete_image.
  rewrite (parseInt_of_id _ Hid).
  unfold deleteImage. simpl storyboardData. simpl images.
  simpl list_find.
  destruct (decide (has_id _ _)) as [_|Hn]; [|destruct Hn; reflexivity].
  simpl option_map. cbv iota beta zeta.
  unfold fs.unlinkSync. simpl filename. rewrite strip_prefix_app.
  simpl uploads.
  destruct (decide (_ ∈ _)) as [_|Hn].
  2:{ destruct Hn. apply elem_of_union. left. apply elem_of_singleton.
      reflexivity. }
  simpl. repeat split. exists file. split; [reflexivity|].
  apply set_eq. intros y.
  rewrite !elem_of_difference, elem_of_union, elem_of_singleton.
  split.
  - intros [[Hy|Hy] Hn]; [destruct (Hn Hy)|split; assumption].
  - intros [Hy Hn]. split; [right; exact Hy|exact Hn].
Qed.

Lemma delete_undoes_upload_witness :
  let w1 := fst (serve (PostUpload sample_env (Some sample_png)
                          (Some "Cat") (Some "A cat")) sample_world) in
  let r := serve (DeleteImage (Number_toString (now_id sample_env))) w1 in
  status (snd (serve (PostUpload sample_env (Some sample_png)
                        (Some "Cat") (Some "A cat")) sample_world)) = 200
  /\ images (storyboardData (fst r)) = images (storyboardData sample_world)
  /\ snd r = ok (SuccessJson "Image deleted successfully").
Proof.
  intros w1 r.
  pose proof (delete_undoes_upload sample_env (Some sample_png) (Some "Cat")
                (Some "A cat") sample_world eq_refl
                ltac:(vm_compute; discriminate)) as H.
  split; [reflexivity|]. split; [apply H|apply H].
Defined.

(** ** What a request does to the entries *)

Lemma list_find_middle (imageId : option Z) (imgs : list ImageEntry) i image :
  list_find (has_id imageId) imgs = Some (i, image) ->
  exists l1 l2,
    imgs = (l1 ++ image :: l2)%list
    /\ <[ i := toggle image ]> imgs = (l1 ++ toggle image :: l2)%list
    /\ delete i imgs = (l1 ++ l2)%list
    /\ has_id imageId image
    /\ (forall x, x ∈ l1 -> ~ has_id imageId x).
Proof.
  intros Hfind. pose proof Hfind as Hsome.
  apply list_find_Some in Hsome as (Hi & _ & _).
  apply list_find_split in Hfind as (Hsplit & Hid & Hbefore).
  exists (take i imgs), (drop (S i) imgs). split; [exact Hsplit|].
  split; [|split; [apply delete_take_drop|split; assumption]].
  apply insert_take_drop. apply lookup_lt_Some in Hi. exact Hi.
Qed.

(** The four things a request can do to the list of entries. *)
Lemma serve_images (r : request) (w : World) :
  let imgs := images (storyboardData w) in
  let imgs' := images (storyboardData (fst (serve r w))) in
  imgs' = imgs
  \/ (exists ev file t d,
        r = PostUpload ev (Some file) (Some t) (Some d)
        /\ t <> "" /\ d <> ""
        /\ imgs' = {| id := now_id ev; title := t; description := d;
                      date := now_iso ev; isFavorite := false;
                      filename := storage_filename ev file;
                      url := "/uploads/" ++ storage_filename ev file |}
                   :: imgs)
  \/ (exists p l1 x l2,
        r = PostFavorite p
        /\ has_id (parseInt p) x
        /\ (forall y, y ∈ l1 -> ~ has_id (parseInt p) y)
        /\ imgs = (l1 ++ x :: l2)%list
        /\ imgs' = (l1 ++ toggle x :: l2)%list)
  \/ (exists p l1 x l2,
        r = DeleteImage p
        /\ has_id (parseInt p) x
        /\ (forall y, y ∈ l1 -> ~ has_id (parseInt p) y)
        /\ imgs = (l1 ++ x :: l2)%list
        /\ imgs' = (l1 ++ l2)%list).
Proof.
  intros imgs imgs'. subst imgs imgs'. destruct r.
  - left. destruct page; reflexivity.
  - left. reflexivity.
  - left. reflexivity.
  - rewrite serve_upload.
    destruct (valueTruncated req_title || valueTruncated req_description);
      [left; reflexivity|].
    destruct att as [file|]; [|left; reflexivity].
    destruct (String.eqb (originalname file) ""); [left; reflexivity|].
    destruct (fileFilter file); [|left; reflexivity].
    destruct (size file <? fileSize_limit); [|left; reflexivity].
    destruct req_title as [[|a t]|]; try (left; reflexivity);
      destruct req_description as [[|b d]|]; try (left; reflexivity).
    right. left. exists ev, file, (String a t), (String b d).
    repeat split; discriminate.
  - simpl. unfold post_favorite, toggleFavorite.
    destruct (list_find _ _) as [[i image]|] eqn:Hfind; [|left; reflexivity].
    apply list_find_middle in Hfind as (l1 & l2 & H1 & H2 & _ & H3 & H4).
    right. right. left. exists param, l1, image, l2.
    split; [reflexivity|]. split; [exact H3|]. split; [exact H4|].
    split; [exact H1|]. simpl. exact H2.
  - simpl. unfold delete_image, deleteImage.
    destruct (list_find _ _) as [[i image]|] eqn:Hfind; [|left; reflexivity].
    apply list_find_middle in Hfind as (l1 & l2 & H1 & _ & H2 & H3 & H4).
    right. right. right. exists param, l1, image, l2.
    split; [reflexivity|]. split; [exact H3|]. split; [exact H4|].
    split; [exact H1|]. simpl. exact H2.
  - left. simpl. unfold post_login. destruct (strict_equal_string _ _); reflexivity.
Qed.

(** ** Favourites *)

Lemma count_favorites_app l1 l2 :
  count_favorites (l1 ++ l2) = count_favorites l1 + count_favorites l2.
Proof.
  unfold count_favorites. rewrite List.filter_app, length_app. lia.
Qed.

(** X7. A toggle that succeeds moves the number of favourites by exactly
    one, up when the answer says that the entry is now a favourite and
    down when it says that it is not; the counter is that number, and
    the number of entries does not change. *)
Theorem toggle_moves_count_by_one (param : string) (w : World) :
  status (snd (serve (PostFavorite param) w)) = 200 ->
  let r := serve (PostFavorite param) w in
  exists flag : bool,
    body (snd r) = FavoriteJson flag
    /\ count_favorites (images (storyboardData (fst r)))
       = count_favorites (images (storyboardData w))
         + (if flag then 1 else -1)
    /\ totalFavorites (stats (storyboardData (fst r)))
       = count_favorites (images (storyboardData (fst r)))
    /\ length (images (storyboardData (fst r)))
       = length (images (storyboardData w)).
Proof.
  simpl. unfold post_favorite, toggleFavorite.
  destruct (list_find _ _) as [[i image]|] eqn:Hfind; [|discriminate].
  intros _. exists (negb (isFavorite image)). simpl.
  split; [reflexivity|].
  apply list_find_middle in Hfind as (l1 & l2 & H1 & H2 & _).
  rewrite H2. set (imgs := images (storyboardData w)) in *.
  clearbody imgs. subst imgs.
  split; [|split; [reflexivity|rewrite !length_app; reflexivity]].
  rewrite !count_favorites_app, !count_favorites_cons. simpl.
  destruct (isFavorite image); simpl; lia.
Qed.

Lemma toggle_moves_count_by_one_witness :
  exists flag : bool,
    body (snd (serve (PostFavorite "5") sample_world)) = FavoriteJson flag
    /\ count_favorites
         (images (storyboardData (fst (serve (PostFavorite "5") sample_world))))
       = count_favorites (images (storyboardData sample_world))
         + (if flag then 1 else -1).
Proof.
  destruct (toggle_moves_count_by_one "5" sample_world eq_refl)
    as (flag & Hbody & Hcount & _).
  exists flag. split; assumption.
Defined.

(** ** Deleting twice *)

(** X8. When no two entries have the same id, an entry that was deleted
    is gone for good: the same request again finds nothing, answers 404
    and changes nothing. *)
Theorem delete_again_finds_nothing (param : string) (w : World) :
  NoDup (map id (images (storyboardData w))) ->
  status (snd (serve (DeleteImage param) w)) = 200 ->
  let w1 := fst (serve (DeleteImage param) w) in
  serve (DeleteImage param) w1 = (w1, error 404 "Image not found").
Proof.
  intros Hnd Hok w1.
  assert (Himgs : exists l1 x l2,
             has_id (parseInt param) x
             /\ (forall y, y ∈ l1 -> ~ has_id (parseInt param) y)
             /\ images (storyboardData w) = (l1 ++ x :: l2)%list
             /\ images (storyboardData w1) = (l1 ++ l2)%list).
  { subst w1. revert Hok. simpl. unfold delete_image, deleteImage.
    destruct (list_find _ _) as [[i image]|] eqn:Hfind; [|discriminate].
    intros _.
    apply list_find_middle in Hfind as (l1 & l2 & H1 & _ & H2 & H3 & H4).
    exists l1, image, l2. simpl. auto. }
  destruct Himgs as (l1 & x & l2 & Hx & Hl1 & Himgs & Himgs1).
  simpl. unfold delete_image, deleteImage.
  rewrite list_find_absent; [reflexivity|].
  rewrite Himgs1. intros y Hy Hid.
  apply elem_of_app in Hy as [Hy|Hy]; [exact (Hl1 y Hy Hid)|].
  rewrite Himgs, map_app in Hnd. apply NoDup_app in Hnd as (_ & _ & Hnd).
  simpl in Hnd. apply NoDup_cons in Hnd as (Hnot & _).
  apply Hnot. unfold has_id in Hx, Hid.
  assert (Heq : id x = id y) by congruence. rewrite Heq.
  change (id y ∈ id <$> l2). apply list_elem_of_fmap_2. exact Hy.
Qed.

Lemma delete_again_finds_nothing_witness :
  NoDup (map id (images (storyboardData sample_world)))
  /\ status (snd (serve (DeleteImage "5") sample_world)) = 200
  /\ snd (serve (DeleteImage "5")
            (fst (serve (DeleteImage "5") sample_world)))
     = error 404 "Image not found".
Proof.
  assert (Hnd : NoDup (map id (images (storyboardData sample_world)))).
  { apply (bool_decide_unpack _). vm_compute. exact I. }
  split; [exact Hnd|]. split; [reflexivity|].
  exact (f_equal snd
           (delete_again_finds_nothing "5" sample_world Hnd eq_refl)).
Defined.


(** ** The entries of a run *)

Lemma well_formed_toggle img : well_formed img -> well_formed (toggle img).
Proof. intros H. exact H. Qed.

Lemma serve_well_formed r w :
  Forall well_formed (images (storyboardData w)) ->
  Forall well_formed (images (storyboardData (fst (serve r w)))).
Proof.
  intros Hw.
  destruct (serve_images r w)
    as [->|[(ev & file & t & d & _ & Ht & Hd & ->)
       |[(p & l1 & x & l2 & _ & _ & _ & Himgs & ->)
        |(p & l1 & x & l2 & _ & _ & _ & Himgs & ->)]]].
  - exact Hw.
  - constructor; [|exact Hw].
    split; [exact Ht|]. split; [exact Hd|]. split; [reflexivity|].
    apply storage_filename_no_slash.
  - rewrite Himgs in Hw. apply Forall_app in Hw as (H1 & H2).
    apply Forall_cons in H2 as (Hx & H2).
    apply Forall_app. split; [exact H1|].
    constructor; [apply well_formed_toggle, Hx|exact H2].
  - rewrite Himgs in Hw. apply Forall_app in Hw as (H1 & H2).
    apply Forall_cons in H2 as (Hx & H2).
    apply Forall_app. split; assumption.
Qed.

(** X9. Every entry of a catalog that began empty is as the upload
    handler builds entries, whatever requests came: it has a title and a
    description, its url is [/uploads/] followed by its file name, and
    the file name has no path separator, so that file and url stay
    inside the [uploads] directory. *)
Theorem entries_are_well_formed (rs : list request) (doc : option string)
    (blobs : gset string) :
  Forall (fun img =>
            title img <> "" /\ description img <> ""
            /\ url img = "/uploads/" ++ filename img
            /\ ~ occurs "/" (filename img))
    (images (storyboardData
               (run rs {| storyboardData := initial_data; data_json := doc;
                          uploads := blobs |}))).
Proof.
  change (Forall well_formed
            (images (storyboardData
                       (run rs {| storyboardData := initial_data;
                                  data_json := doc; uploads := blobs |})))).
  set (w := {| storyboardData := initial_data; data_json := doc;
               uploads := blobs |}).
  assert (Hw : Forall well_formed (images (storyboardData w)))
    by constructor.
  clearbody w. revert w Hw.
  induction rs as [|r rs IH]; intros w Hw; [exact Hw|].
  simpl. apply IH, serve_well_formed, Hw.
Qed.

(** ** Ids *)

Lemma serve_ids (r : request) (w : World) :
  let ids := map id (images (storyboardData w)) in
  let ids' := map id (images (storyboardData (fst (serve r w)))) in
  ids' = ids
  \/ (exists ev att t d, r = PostUpload ev att t d /\ ids' = now_id ev :: ids)
  \/ (exists l1 n l2, ids = (l1 ++ n :: l2)%list /\ ids' = (l1 ++ l2)%list).
Proof.
  intros ids ids'. subst ids ids'.
  destruct (serve_images r w)
    as [->|[(ev & file & t & d & -> & _ & _ & Heq)
       |[(p & l1 & x & l2 & _ & _ & _ & Himgs & Heq)
        |(p & l1 & x & l2 & _ & _ & _ & Himgs & Heq)]]].
  - left. reflexivity.
  - right. left. exists ev, (Some file), (Some t), (Some d).
    split; [reflexivity|]. rewrite Heq. reflexivity.
  - left. rewrite Heq, Himgs, !map_app. reflexivity.
  - right. right. exists (map id l1), (id x), (map id l2).
    rewrite Heq, Himgs, !map_app. split; reflexivity.
Qed.

Lemma run_ids_decrease (rs : list request) : forall w,
  StronglySorted Z.lt (upload_ids rs) ->
  StronglySorted (fun newer older => older < newer)
    (map id (images (storyboardData w))) ->
  Forall (fun n => Forall (fun i => i < n)
                     (map id (images (storyboardData w))))
    (upload_ids rs) ->
  StronglySorted (fun newer older => older < newer)
    (map id (images (storyboardData (run rs w)))).
Proof.
  induction rs as [|r rs IH]; intros w Hclock Hsorted Hbound; [exact Hsorted|].
  simpl run.
  assert (Hclock' : StronglySorted Z.lt (upload_ids rs)).
  { destruct r; try exact Hclock. simpl in Hclock.
    apply StronglySorted_cons in Hclock as [_ H]. exact H. }
  assert (Hbound' : Forall (fun n => Forall (fun i => i < n)
                                       (map id (images (storyboardData w))))
                      (upload_ids rs)).
  { destruct r; try exact Hbound. simpl in Hbound.
    apply Forall_cons in Hbound as [_ H]. exact H. }
  apply IH; [exact Hclock'| |];
    destruct (serve_ids r w)
      as [->|[(ev & att & t & d & -> & ->)|(l1 & n & l2 & Hids & ->)]];
    try assumption.
  - simpl in Hbound. apply Forall_cons in Hbound as [Hnew _].
    apply StronglySorted_cons. split; [exact Hnew|exact Hsorted].
  - rewrite Hids in Hsorted.
    apply StronglySorted_app in Hsorted as (Hcross & H1 & H2).
    apply StronglySorted_cons in H2 as (_ & H2).
    apply StronglySorted_app. split; [|split; assumption].
    intros x1 x2 Hx1 Hx2. apply Hcross; [exact Hx1|]. right. exact Hx2.
  - simpl in Hclock. apply StronglySorted_cons in Hclock as [Hlater _].
    rewrite Forall_forall in Hlater, Hbound'. apply Forall_forall.
    intros m Hm. constructor; [apply Hlater, Hm|apply Hbound', Hm].
  - rewrite Forall_forall in Hbound'. apply Forall_forall.
    intros m Hm. apply Hbound' in Hm.
    rewrite Hids in Hm. apply Forall_app in Hm as (H1 & H2).
    apply Forall_cons in H2 as (_ & H2). apply Forall_app. split; assumption.
Qed.

(** X10. The id of an entry is the reading of the clock at its upload.
    When the clock moves on between any two uploads of a run that began
    with the empty catalog, the entries are listed newest first, with
    strictly decreasing ids, so that no two entries have the same id. *)
Theorem newest_first (rs : list request) (doc : option string)
    (blobs : gset string) :
  StronglySorted Z.lt (upload_ids rs) ->
  let imgs := images (storyboardData
                        (run rs {| storyboardData := initial_data;
                                   data_json := doc; uploads := blobs |})) in
  StronglySorted (fun newer older => older < newer) (map id imgs)
  /\ NoDup (map id imgs).
Proof.
  intros Hclock imgs.
  assert (Hsorted : StronglySorted (fun newer older => older < newer)
                      (map id imgs)).
  { apply run_ids_decrease; [exact Hclock|constructor|].
    apply Forall_forall. intros n _. constructor. }
  split; [exact Hsorted|].
  clearbody imgs. induction (map id imgs) as [|n ids IH]; [constructor|].
  apply StronglySorted_cons in Hsorted as (Hn & Hsorted).
  apply NoDup_cons. split; [|apply IH, Hsorted].
  intros Hin. rewrite Forall_forall in Hn. specialize (Hn n Hin). lia.
Qed.

Lemma newest_first_witness :
  StronglySorted Z.lt (upload_ids sample_requests)
  /\ NoDup (map id (images (storyboardData
                              (run sample_requests empty_world)))).
Proof.
  assert (H : StronglySorted Z.lt (upload_ids sample_requests)).
  { simpl. repeat constructor. }
  split; [exact H|]. exact (proj2 (newest_first sample_requests None ∅ H)).
Defined.

(** X11. A toggle or a deletion touches the entries of one id only: the
    entries whose id is not the number that the request's parameter
    reads as are the same after the request, in the same order. *)
Theorem other_entries_untouched (param : string) (w : World) :
  let others :=
    filter (fun img : ImageEntry => parseInt param <> Some (id img)) in
  others (images (storyboardData (fst (serve (PostFavorite param) w))))
  = others (images (storyboardData w))
  /\ others (images (storyboardData (fst (serve (DeleteImage param) w))))
     = others (images (storyboardData w)).
Proof.
  intros others. subst others. split.
  - destruct (serve_images (PostFavorite param) w)
      as [->|[(ev & file & t & d & [=] & _)
         |[(p & l1 & x & l2 & [= <-] & Hx & _ & -> & ->)
          |(p & l1 & x & l2 & [=] & _)]]]; [reflexivity|].
    rewrite !filter_app. f_equal.
    rewrite !filter_cons_False; [reflexivity| |];
      intros Hn; apply Hn; exact Hx.
  - destruct (serve_images (DeleteImage param) w)
      as [->|[(ev & file & t & d & [=] & _)
         |[(p & l1 & x & l2 & [=] & _)
          |(p & l1 & x & l2 & [= <-] & Hx & _ & -> & ->)]]]; [reflexivity|].
    rewrite !filter_app. f_equal.
    rewrite filter_cons_False; [reflexivity|].
    intros Hn; apply Hn; exact Hx.
Qed.

(** ** The extension of the stored file *)

Lemma list_ascii_of_string_app (s t : string) :
  list_ascii_of_string (s ++ t)
  = (list_ascii_of_string s ++ list_ascii_of_string t)%list.
Proof.
  induction s as [|a s IH]; [reflexivity|].
  rewrite append_cons. simpl. f_equal. exact IH.
Qed.

Lemma length_list_ascii_of_string (s : string) :
  length (list_ascii_of_string s) = String.length s.
Proof. induction s as [|a s IH]; simpl; [reflexivity|f_equal; exact IH]. Qed.

Lemma substring_suffix (s t : string) :
  substring (String.length s) (String.length t) (s ++ t) = t.
Proof.
  induction s as [|a s IH].
  - simpl. induction t as [|b t IHt]; [reflexivity|].
    simpl. f_equal. exact IHt.
  - rewrite append_cons. simpl. exact IH.
Qed.

Lemma extname_step_plain i x st :
  plain_char x ->
  extname_step i x st
  = inr (if end_ st =? -1 then
           {| startDot := startDot st; startPart := startPart st;
              end_ := i + 1; matchedSlash := false;
              preDotState := if startDot st =? -1 then preDotState st else -1 |}
         else
           {| startDot := startDot st; startPart := startPart st;
              end_ := end_ st; matchedSlash := matchedSlash st;
              preDotState := if startDot st =? -1 then preDotState st else -1 |}).
Proof.
  intros [Hslash Hdot]. unfold extname_step.
  apply Ascii.eqb_neq in Hslash, Hdot. rewrite Hslash.
  destruct st as [sd sp e ms pd]. simpl.
  destruct (e =? -1); simpl; rewrite Hdot; destruct (sd =? -1); reflexivity.
Qed.

(** Over the characters of the extension nothing changes once the end of
    the name is marked. *)
Lemma extname_loop_plain (l : list ascii) : forall i st rest,
  Forall plain_char l -> startDot st = -1 -> end_ st <> -1 ->
  extname_loop (l ++ rest) i st
  = extname_loop rest (i - Z.of_nat (length l)) st.
Proof.
  induction l as [|x l IH]; intros i st rest Hl Hsd He.
  - simpl. f_equal. lia.
  - apply Forall_cons in Hl as [Hx Hl].
    simpl app. simpl extname_loop. rewrite (extname_step_plain _ _ _ Hx).
    apply Z.eqb_neq in He. rewrite He, Hsd. simpl.
    replace {| startDot := -1; startPart := startPart st; end_ := end_ st;
               matchedSlash := matchedSlash st; preDotState := preDotState st |}
      with st by (destruct st; simpl in *; congruence).
    rewrite IH; [|exact Hl|exact Hsd|apply Z.eqb_neq, He].
    f_equal. simpl length. lia.
Qed.

(** The scan of the extension and of its dot, from the end of the path. *)
Lemma extname_loop_extension (l : list ascii) (i : Z) (rest : list ascii) :
  Forall plain_char l -> 0 <= i ->
  extname_loop (l ++ "."%char :: rest) i
    {| startDot := -1; startPart := 0; end_ := -1; matchedSlash := true;
       preDotState := 0 |}
  = extname_loop rest (i - Z.of_nat (length l) - 1)
      {| startDot := i - Z.of_nat (length l); startPart := 0; end_ := i + 1;
         matchedSlash := false; preDotState := 0 |}.
Proof.
  intros Hl Hi. destruct l as [|x l].
  - simpl. replace (i - Z.of_nat 0) with i by lia. reflexivity.
  - apply Forall_cons in Hl as [Hx Hl].
    simpl app. simpl extname_loop. rewrite (extname_step_plain _ _ _ Hx).
    simpl. rewrite extname_loop_plain; [|exact Hl|reflexivity|simpl; lia].
    simpl extname_loop. unfold extname_step at 1. simpl.
    destruct (Z.eqb_spec (i + 1) (-1)) as [Hneg|_]; [lia|]. simpl.
    replace (i - 1 - Z.of_nat (length l))
      with (i - Z.pos (Pos.of_succ_nat (length l))) by lia.
    reflexivity.
Qed.

(** The scan of the rest of the name, up to its start or to the
    separator before it: the dot and the end stay, and the leading
    characters are not taken for a name made of dots. *)
Lemma extname_loop_stem (D E : Z) (l : list ascii) : forall i st,
  D <> -1 -> E <> -1 ->
  startDot st = D -> end_ st = E -> matchedSlash st = false ->
  startPart st = 0 ->
  i = Z.of_nat (length l) - 1 ->
  (preDotState st = -1 /\ i = D - 2)
  \/ ((preDotState st = -1 \/ preDotState st = 1) /\ i < D - 2) ->
  let st' := extname_loop l i st in
  startDot st' = D /\ end_ st' = E
  /\ (preDotState st' = -1 \/ preDotState st' = 1)
  /\ ~ (preDotState st' = 1 /\ startPart st' = D - 1).
Proof.
  induction l as [|x l IH]; intros i st HD HE Hsd He Hms Hsp Hi Hpre; simpl.
  - simpl in Hi. repeat split; try assumption.
    + destruct Hpre as [[H _]|[H _]]; [left; exact H|exact H].
    + intros [H1 H2]. destruct Hpre as [[H _]|[_ H]]; lia.
  - simpl length in Hi. unfold extname_step.
    destruct (Ascii.eqb x "/").
    { rewrite Hms. simpl. repeat split; try assumption.
      - destruct Hpre as [[H _]|[H _]]; [left; exact H|exact H].
      - intros [H1 H2]. destruct Hpre as [[H _]|[_ H]]; lia. }
    assert (Hend : (end_ st =? -1) = false) by (apply Z.eqb_neq; lia).
    assert (Hdot : (startDot st =? -1) = false) by (apply Z.eqb_neq; lia).
    rewrite Hend. cbv zeta. rewrite Hdot. simpl negb. cbv iota.
    destruct (Ascii.eqb x ".").
    + destruct (Z.eqb_spec (preDotState st) 1) as [H1|H1]; simpl negb;
        cbv iota; apply IH; simpl; try assumption; try lia;
        right; (split; [right; (reflexivity || exact H1)|]);
        destruct Hpre as [[_ H]|[_ H]]; lia.
    + apply IH; simpl; try assumption; lia.
Qed.

Lemma extname_of_plain_extension (stem : string) (c : ascii) (ext : string) :
  c <> "/"%char -> c <> "."%char ->
  ~ occurs "/" ext -> ~ occurs "." ext ->
  extname (stem ++ String c (String "." ext)) = String "." ext.
Proof.
  intros Hc1 Hc2 He1 He2. unfold extname.
  set (p := stem ++ String c (String "." ext)).
  assert (Hlen : String.length p
                 = (String.length stem + 2 + String.length ext)%nat).
  { unfold p. rewrite length_append. simpl. lia. }
  assert (Hrev : rev (list_ascii_of_string p)
                 = (rev (list_ascii_of_string ext)
                    ++ "."%char :: c :: rev (list_ascii_of_string stem))%list).
  { unfold p. rewrite list_ascii_of_string_app. simpl.
    rewrite rev_app_distr. simpl. rewrite <- !app_assoc. reflexivity. }
  rewrite Hrev, extname_loop_extension.
  2:{ apply Forall_forall. intros x Hx. apply list_elem_of_In in Hx.
      apply in_rev in Hx. split; intros ->; [exact (He1 Hx)|exact (He2 Hx)]. }
  2:{ lia. }
  rewrite List.length_rev, length_list_ascii_of_string.
  simpl extname_loop.
  rewrite (extname_step_plain _ _ _ (conj Hc1 Hc2)). simpl end_.
  destruct (Z.eqb_spec (Z.of_nat (String.length p) - 1 + 1) (-1)) as [Hn|_];
    [lia|].
  simpl startDot.
  destruct (Z.eqb_spec (Z.of_nat (String.length p) - 1
                        - Z.of_nat (String.length ext)) (-1)) as [Hn|_];
    [lia|].
  simpl.
  set (D := Z.of_nat (String.length p) - 1 - Z.of_nat (String.length ext)).
  set (E := Z.of_nat (String.length p) - 1 + 1).
  match goal with
  | |- context [extname_loop ?l ?i ?st] =>
      destruct (extname_loop_stem D E l i st) as (Hsd & Hend & Hpre & Hnot);
        try reflexivity; try (unfold D, E; lia);
        [rewrite List.length_rev, length_list_ascii_of_string; unfold D; lia
        |left; split; [reflexivity|unfold D; lia]|];
        set (st' := extname_loop l i st) in *
  end.
  assert (Hslice : slice p D E = String "." ext).
  { unfold slice, p.
    replace (Z.to_nat D) with (String.length (stem ++ String c ""))
      by (rewrite length_append; simpl; unfold D; lia).
    replace (Z.to_nat (E - D)) with (String.length (String "." ext))
      by (simpl; unfold D, E; lia).
    replace (stem ++ String c (String "." ext))
      with ((stem ++ String c "") ++ String "." ext)
      by (rewrite append_assoc; reflexivity).
    apply substring_suffix. }
  rewrite Hsd, Hend, Hslice.
  destruct (Z.eqb_spec D (-1)) as [Hn|_]; [unfold D in Hn; lia|].
  destruct (Z.eqb_spec E (-1)) as [Hn|_]; [unfold E in Hn; lia|].
  destruct (Z.eqb_spec (preDotState st') 0) as [Hn|_]; [lia|].
  simpl orb.
  destruct (Z.eqb_spec (preDotState st') 1) as [H1|_]; [|reflexivity].
  destruct (Z.eqb_spec D (E - 1)) as [H2|_]; [|reflexivity].
  destruct (Z.eqb_spec D (startPart st' + 1)) as [H3|_]; [|reflexivity].
  destruct Hnot. split; [exact H1|lia].
Qed.

(** X12. The extension of the stored file is the one of the name that
    the client gave, whatever media type it declared: when the original
    name ends in a dot and an extension without dot and separator, and
    the character before that dot is neither of them, the stored name is
    the clock reading, a dash, the random integer, the dot and that
    extension. *)
Theorem stored_extension_is_the_clients (ev : Env) (stem : string)
    (c : ascii) (ext : string) (media : string) (bytes : Z) :
  c <> "/"%char -> c <> "."%char ->
  ~ occurs "/" ext -> ~ occurs "." ext ->
  storage_filename ev
    {| originalname := stem ++ String c (String "." ext);
       mimetype := media; size := bytes |}
  = Number_toString (now_storage ev) ++ "-"
    ++ Number_toString (random ev) ++ "." ++ ext.
Proof.
  intros Hc1 Hc2 He1 He2. unfold storage_filename. simpl originalname.
  rewrite extname_of_plain_extension by assumption. reflexivity.
Qed.

Lemma stored_extension_is_the_clients_witness :
  fileFilter {| originalname := "page.html"; mimetype := "image/png";
                size := 10 |} = true
  /\ storage_filename sample_env
       {| originalname := "page.html"; mimetype := "image/png"; size := 10 |}
     = Number_toString (now_storage sample_env) ++ "-"
       ++ Number_toString (random sample_env) ++ ".html".
Proof.
  split; [reflexivity|].
  apply (stored_extension_is_the_clients sample_env "pag" "e" "html"
           "image/png" 10).
  - discriminate.
  - discriminate.
  - unfold occurs. simpl. intros [H|[H|[H|[H|[]]]]]; discriminate H.
  - unfold occurs. simpl. intros [H|[H|[H|[H|[]]]]]; discriminate H.
Defined.

Lemma extname_loop_no_dot (l : list ascii) : forall i st,
  Forall (fun x => x <> "."%char) l -> startDot st = -1 ->
  startDot (extname_loop l i st) = -1.
Proof.
  induction l as [|x l IH]; intros i st Hl Hsd; [exact Hsd|].
  apply Forall_cons in Hl as [Hx Hl]. apply Ascii.eqb_neq in Hx.
  simpl. unfold extname_step. rewrite Hx.
  destruct (Ascii.eqb x "/").
  - destruct (negb (matchedSlash st)); [exact Hsd|apply IH; assumption].
  - destruct (end_ st =? -1); cbv zeta; simpl startDot; rewrite Hsd;
      simpl; apply IH; solve [assumption | reflexivity].
Qed.

(** X13. An original name without a dot gives a stored name without
    extension: the clock reading, a dash and the random integer. *)
Theorem no_dot_no_extension (ev : Env) (file : Attachment) :
  ~ occurs "." (originalname file) ->
  storage_filename ev file
  = Number_toString (now_storage ev) ++ "-" ++ Number_toString (random ev).
Proof.
  intros Hdot. unfold storage_filename, extname.
  rewrite extname_loop_no_dot; [simpl; rewrite append_nil_r; reflexivity| |reflexivity].
  apply Forall_forall. intros x Hx. apply list_elem_of_In, in_rev in Hx.
  intros ->. exact (Hdot Hx).
Qed.

Lemma no_dot_no_extension_witness :
  storage_filename sample_env
    {| originalname := "holiday/README"; mimetype := "image/png"; size := 10 |}
  = Number_toString (now_storage sample_env) ++ "-"
    ++ Number_toString (random sample_env).
Proof.
  apply (no_dot_no_extension sample_env
           {| originalname := "holiday/README"; mimetype := "image/png";
              size := 10 |}).
  unfold occurs. simpl. intuition discriminate.
Defined.
